(** * csvparser: a streaming CSV-to-PostgreSQL ingestion pipeline

    Shallow embedding of [services/parser.js] (class [CSVParser]),
    [services/databaseService.js] ([uploadUsersBatch]) and the
    [POST /api/process-csv] handler of [app.js].

    Strings are JavaScript strings restricted to code units below 256: a
    Rocq [string] is read as the sequence of its code units. *)

From Stdlib Require Import String Ascii List ZArith Lia Bool Arith.
From Stdlib Require Import Numbers.DecimalString.
Import ListNotations.
Open Scope string_scope.
Open Scope list_scope.
Set Warnings "-register-all".

(** ** JavaScript string primitives *)

Module JsString.

Definition dquote : ascii := "034"%char.
Definition comma : ascii := ","%char.
Definition dot : ascii := "."%char.

(** [WhiteSpace] and [LineTerminator] code units below 256: TAB, LF, VT,
    FF, CR, SP and NBSP. *)
Definition isWhiteSpace (c : ascii) : bool :=
  existsb (Ascii.eqb c)
    ["009"%char; "010"%char; "011"%char; "012"%char; "013"%char;
     " "%char; "160"%char].

Definition isEmpty (s : string) : bool :=
  match s with EmptyString => true | String _ _ => false end.

Fixpoint trimStart (s : string) : string :=
  match s with
  | EmptyString => EmptyString
  | String c r => if isWhiteSpace c then trimStart r else s
  end.

Fixpoint trimEnd (s : string) : string :=
  match s with
  | EmptyString => EmptyString
  | String c r =>
      let r' := trimEnd r in
      if isWhiteSpace c && isEmpty r' then EmptyString else String c r'
  end.

(** [String.prototype.trim] *)
Definition trim (s : string) : string := trimEnd (trimStart s).

(** [s + c] for a single code unit [c] *)
Definition push_char (s : string) (c : ascii) : string :=
  s ++ String c EmptyString.

(** [String.prototype.split] on a one-character separator: the result is
    never empty. *)
Fixpoint split_aux (sep : ascii) (s : string) (cur : string) : list string :=
  match s with
  | EmptyString => [cur]
  | String c r =>
      if Ascii.eqb c sep then cur :: split_aux sep r EmptyString
      else split_aux sep r (push_char cur c)
  end.

Definition split (sep : ascii) (s : string) : list string :=
  split_aux sep s EmptyString.

(** [Array.prototype.join] *)
Fixpoint join (sep : string) (l : list string) : string :=
  match l with
  | [] => EmptyString
  | [x] => x
  | x :: r => x ++ sep ++ join sep r
  end.

(** [Array.prototype.includes] on an array of strings *)
Definition includes (l : list string) (x : string) : bool :=
  existsb (String.eqb x) l.

(** Decimal rendering of a non-negative integer, as a template literal
    renders a counter. *)
Definition of_nat (n : nat) : string :=
  NilZero.string_of_uint (Nat.to_uint n).

(** The line feed that ends a line of the error log *)
Definition lineFeed : string := String "010"%char EmptyString.

(** Does the string contain the code unit [c]? *)
Fixpoint contains_char (c : ascii) (s : string) : bool :=
  match s with
  | EmptyString => false
  | String d r => Ascii.eqb c d || contains_char c r
  end.

(** Is [p] a substring of [s]? *)
Fixpoint is_infix (p s : string) : bool :=
  String.prefix p s
  || match s with
     | EmptyString => false
     | String _ r => is_infix p r
     end.

End JsString.
Import JsString.

(** ** Row tokenizer: [CSVParser.parseCSVLine] *)

(** The [while (i < line.length)] loop.  [line] is the suffix of the input
    from index [i] on; [values], [current] and [insideQuotes] are the loop's
    variables.  The escaped-quote branch advances by two characters. *)
Fixpoint parseCSVLine_loop (line : string) (values : list string)
    (current : string) (insideQuotes : bool) : list string :=
  match line with
  | EmptyString => values ++ [trim current]
  | String char rest =>
      if Ascii.eqb char dquote then
        match rest with
        | String next rest' =>
            if insideQuotes && Ascii.eqb next dquote
            then parseCSVLine_loop rest' values (push_char current dquote)
                   insideQuotes
            else parseCSVLine_loop rest values current (negb insideQuotes)
        | EmptyString =>
            parseCSVLine_loop rest values current (negb insideQuotes)
        end
      else if Ascii.eqb char comma && negb insideQuotes then
        parseCSVLine_loop rest (values ++ [trim current]) EmptyString
          insideQuotes
      else
        parseCSVLine_loop rest values (push_char current char) insideQuotes
  end.

Definition parseCSVLine (line : string) : list string :=
  parseCSVLine_loop line [] EmptyString false.

(** ** JavaScript numbers as far as the parser produces them *)

(** [parseInt] returns NaN or an integer.  [Int z] stands for the Number
    nearest to [z]: exact when [|z| <= 2^53]; the zero of either sign is
    [Int 0]. *)
Inductive number : Type :=
| NaN
| Int (z : Z).

Module JsNumber.

Definition inRange (lo hi c : ascii) : bool :=
  (N_of_ascii lo <=? N_of_ascii c)%N && (N_of_ascii c <=? N_of_ascii hi)%N.

Definition isDigit (c : ascii) : bool := inRange "0" "9" c.

(** Value of an alphanumeric character as a digit, [0-9a-zA-Z] -> 0..35 *)
Definition digitValue (c : ascii) : option N :=
  if inRange "0" "9" c then Some (N_of_ascii c - N_of_ascii "0")%N
  else if inRange "a" "z" c then Some (N_of_ascii c - N_of_ascii "a" + 10)%N
  else if inRange "A" "Z" c then Some (N_of_ascii c - N_of_ascii "A" + 10)%N
  else None.

Definition isDigitIn (R : N) (c : ascii) : bool :=
  match digitValue c with
  | Some d => (d <? R)%N
  | None => false
  end.

Fixpoint allChars (p : ascii -> bool) (s : string) : bool :=
  match s with
  | EmptyString => true
  | String c r => p c && allChars p r
  end.

(** One or more characters, all satisfying [p] *)
Definition digits1 (p : ascii -> bool) (s : string) : bool :=
  negb (isEmpty s) && allChars p s.

Fixpoint skipDigits (s : string) : string :=
  match s with
  | EmptyString => EmptyString
  | String c r => if isDigit c then skipDigits r else s
  end.

Definition startsWithDigit (s : string) : bool :=
  match s with
  | EmptyString => false
  | String c _ => isDigit c
  end.

Definition isSign (c : ascii) : bool :=
  Ascii.eqb c "+" || Ascii.eqb c "-".

Definition dropSign (s : string) : string :=
  match s with
  | String c r => if isSign c then r else s
  | EmptyString => s
  end.

(** [ExponentPart], optional *)
Definition exponentPart_opt (s : string) : bool :=
  match s with
  | EmptyString => true
  | String c r =>
      (Ascii.eqb c "e" || Ascii.eqb c "E") && digits1 isDigit (dropSign r)
  end.

(** [StrUnsignedDecimalLiteral] of the ECMAScript grammar *)
Definition strUnsignedDecimalLiteral (s : string) : bool :=
  String.eqb s "Infinity"
  || match skipDigits s with
     | String "."%char r =>
         (startsWithDigit s || startsWithDigit r)
         && exponentPart_opt (skipDigits r)
     | rest => startsWithDigit s && exponentPart_opt rest
     end.

(** [NonDecimalIntegerLiteral]: 0b, 0o and 0x forms, unsigned *)
Definition nonDecimalIntegerLiteral (s : string) : bool :=
  match s with
  | String "0"%char (String p r) =>
      if Ascii.eqb p "x" || Ascii.eqb p "X" then digits1 (isDigitIn 16) r
      else if Ascii.eqb p "o" || Ascii.eqb p "O" then digits1 (isDigitIn 8) r
      else if Ascii.eqb p "b" || Ascii.eqb p "B" then digits1 (isDigitIn 2) r
      else false
  | _ => false
  end.

(** [StringToNumber] does not yield NaN: the trimmed text is empty or a
    [StrNumericLiteral]. *)
Definition isNumericString (s : string) : bool :=
  let t := trim s in
  isEmpty t
  || strUnsignedDecimalLiteral (dropSign t)
  || nonDecimalIntegerLiteral t.

(** The global [isNaN] applied to a string *)
Definition isNaN (s : string) : bool := negb (isNumericString s).

(** Longest prefix of radix-[R] digits, as a number; [None] when the
    prefix is empty. *)
Fixpoint parseDigits (R : N) (s : string) (acc : option N) : option N :=
  match s with
  | EmptyString => acc
  | String c r =>
      match digitValue c with
      | Some d =>
          if (d <? R)%N
          then parseDigits R r
                 (Some (match acc with
                        | Some a => a * R + d
                        | None => d
                        end)%N)
          else acc
      | None => acc
      end
  end.

Definition stripHexPrefix (s : string) : option string :=
  match s with
  | String "0"%char (String p r) =>
      if Ascii.eqb p "x" || Ascii.eqb p "X" then Some r else None
  | _ => None
  end.

(** The global [parseInt(string, radix)]; [radix = 0] stands for an
    omitted radix. *)
Definition parseInt (s : string) (radix : N) : number :=
  let S0 := trimStart s in
  let negative :=
    match S0 with String c _ => Ascii.eqb c "-" | EmptyString => false end in
  let S1 := dropSign S0 in
  if negb (radix =? 0)%N && ((radix <? 2)%N || (36 <? radix)%N) then NaN
  else
    let stripPrefix := (radix =? 0)%N || (radix =? 16)%N in
    let R0 := if (radix =? 0)%N then 10%N else radix in
    let '(R, S2) :=
      match (if stripPrefix then stripHexPrefix S1 else None) with
      | Some r => (16%N, r)
      | None => (R0, S1)
      end in
    match parseDigits R S2 None with
    | None => NaN
    | Some m => Int (if negative then - Z.of_N m else Z.of_N m)
    end.

(** [n < 0] on Numbers; false for NaN *)
Definition ltZero (n : number) : bool :=
  match n with
  | NaN => false
  | Int z => (z <? 0)%Z
  end.

(** [ToString] of these numbers, for magnitudes that print without an
    exponent *)
Definition toString (n : number) : string :=
  match n with
  | NaN => "NaN"
  | Int z => NilZero.string_of_int (Z.to_int z)
  end.

End JsNumber.
Import JsNumber.

(** ** Records: nested objects built by the path materializer *)

(** A property value is a string leaf, a numeric leaf or a nested object.
    An object is its own properties in insertion order, which is the order
    of [Object.keys] for keys that are not array indices.  Properties
    inherited from [Object.prototype] are not modelled, so header paths with
    a segment [__proto__] are outside the model. *)
Inductive jsvalue : Type :=
| VStr (s : string)
| VNum (n : number)
| VObj (fields : list (string * jsvalue)).

Definition object : Type := list (string * jsvalue).

Module Obj.

(** [o[key]]; [None] is [undefined] *)
Fixpoint get (o : object) (key : string) : option jsvalue :=
  match o with
  | [] => None
  | (k, v) :: r => if String.eqb k key then Some v else get r key
  end.

(** [o[key] = v]: an existing property keeps its place, a new one is
    added last. *)
Fixpoint set (o : object) (key : string) (v : jsvalue) : object :=
  match o with
  | [] => [(key, v)]
  | (k, w) :: r =>
      if String.eqb k key then (k, v) :: r else (k, w) :: set r key v
  end.

(** [delete o[key]] *)
Fixpoint remove (o : object) (key : string) : object :=
  match o with
  | [] => []
  | (k, w) :: r =>
      if String.eqb k key then r else (k, w) :: remove r key
  end.

(** [Object.keys(o).length > 0] *)
Definition nonEmpty (o : object) : bool :=
  match o with [] => false | _ :: _ => true end.

(** The value reached from [v] along a path of keys *)
Fixpoint getPath (v : jsvalue) (keys : list string) : option jsvalue :=
  match keys with
  | [] => Some v
  | k :: ks =>
      match v with
      | VObj o =>
          match get o k with
          | Some w => getPath w ks
          | None => None
          end
      | _ => None
      end
  end.

End Obj.

(** ** Errors *)

(** A thrown exception: an [Error] raised by the program with its message,
    or a [TypeError] raised by the engine (message as V8 words it). *)
Inductive exn : Type :=
| Error (message : string)
| TypeError (message : string).

Definition message (e : exn) : string :=
  match e with
  | Error m => m
  | TypeError m => m
  end.

Inductive completion (A : Type) : Type :=
| Return (a : A)
| Throw (e : exn).
Arguments Return {A} a.
Arguments Throw {A} e.

Definition undefinedProperty (name : string) : exn :=
  TypeError ("Cannot read properties of undefined (reading '" ++ name ++ "')").

(** ** [CSVParser]: header validation and materialization *)

Definition mandatoryFields : list string :=
  ["name.firstName"; "name.lastName"; "age"].

Definition batchSize : nat := 1000.

Definition missingMandatory (headers : list string) : list string :=
  filter (fun field => negb (includes headers field)) mandatoryFields.

(** [validateMandatoryFields(headers)] *)
Definition validateMandatoryFields (headers : list string) : completion unit :=
  let missingFields := missingMandatory headers in
  if (0 <? List.length missingFields)%nat
  then Throw (Error ("Missing mandatory fields: " ++ join ", " missingFields))
  else Return tt.

(** The leaf stored by [setNestedProperty]: numeric strings under a key
    [age] become numbers. *)
Definition leafValue (lastKey value : string) : jsvalue :=
  if String.eqb lastKey "age" && negb (isNaN value)
  then VNum (parseInt value 10)
  else VStr value.

(** The descent of [setNestedProperty] over [keys], from [current]: every
    key but the last names a nested object, created (or put in place of a
    value that is not an object) where needed; the last key receives the
    leaf.  [lastKey] is the last key of the whole path.

    An object is given by its own properties.  The test
    [!(key in current) || typeof current[key] !== 'object'] also sees what
    [current] inherits from [Object.prototype]: under every name but
    [__proto__] that is a function, so the test succeeds as for an absent
    key and the assignment creates an own property, which is what happens
    here.  Under the key [__proto__] the code finds [Object.prototype]
    itself, descends into it, and from there into [null]; such paths are
    outside this definition (see [protoFree]). *)
Fixpoint assignPath (current : object) (keys : list string)
    (lastKey value : string) : object :=
  match keys with
  | [] => current
  | [k] => Obj.set current k (leafValue lastKey value)
  | key :: rest =>
      let child :=
        match Obj.get current key with
        | Some (VObj o) => o
        | _ => []
        end in
      Obj.set current key (VObj (assignPath child rest lastKey value))
  end.

(** [setNestedProperty(obj, path, value)]; the object is returned instead
    of updated in place.  It gives what the code does for the paths of
    [protoFree], in a process whose [Object.prototype] holds what the engine
    put there. *)
Definition setNestedProperty (obj : object) (path value : string) : object :=
  let keys := split dot path in
  assignPath obj keys (List.last keys EmptyString) value.

(** The paths none of whose keys is [__proto__].  For these the code never
    reaches [Object.prototype]: it neither changes it nor runs into [null],
    and [setNestedProperty] does not throw. *)
Definition protoFree (path : string) : bool :=
  negb (includes (split dot path) "__proto__").

(** A header all of whose (trimmed) fields are such paths *)
Definition protoFreeHeaders (hs : list string) : bool :=
  forallb (fun h => protoFree (trim h)) hs.

Definition invalidAge (value : string) : bool :=
  isEmpty value || isNaN value || ltZero (parseInt value 0).

Definition invalidAgeError (value : string) : exn :=
  Error ("Invalid age value: " ++ String dquote value ++ String dquote
         ". Age must be a valid positive number.").

(** The [for] loop of [convertRowToObject]: [hs] are the headers from index
    [i] on.  The loop throws at a missing value and at an invalid age; for
    headers in [protoFreeHeaders] those are the only exceptions of the
    code. *)
Fixpoint convertRow_loop (hs : list string) (i : nat) (values : list string)
    (result additionalInfo : object) : completion (object * object) :=
  match hs with
  | [] => Return (result, additionalInfo)
  | h :: hs' =>
      let header := trim h in
      match nth_error values i with
      | None => Throw (undefinedProperty "trim")
      | Some v =>
          let value := trim v in
          if includes mandatoryFields header then
            if String.eqb header "age" && invalidAge value
            then Throw (invalidAgeError value)
            else convertRow_loop hs' (S i) values
                   (setNestedProperty result header value) additionalInfo
          else convertRow_loop hs' (S i) values result
                 (setNestedProperty additionalInfo header value)
      end
  end.

(** [convertRowToObject(headers, values)] *)
Definition convertRowToObject (headers values : list string) : completion object :=
  match convertRow_loop headers 0 values [] [] with
  | Throw e => Throw e
  | Return (result, additionalInfo) =>
      Return (if Obj.nonEmpty additionalInfo
          then Obj.set result "additional_info" (VObj additionalInfo)
          else result)
  end.

(** ** The store: table [public.users] behind a [pg] client *)

(** One row of [public.users] without the columns the server fills in ([id],
    [created_at]).  The two JSONB columns hold the value whose
    [JSON.stringify] text is sent; [None] is SQL NULL.  [col_age] is the
    parameter as the program passes it ([None] is [undefined], sent as
    NULL). *)
Record row : Type := mkRow {
  col_name : string;
  col_age : option jsvalue;
  col_address : option jsvalue;
  col_additional_info : option jsvalue
}.

Inductive sql : Type :=
| BEGIN
| INSERT (rows : list row)
| COMMIT
| ROLLBACK.

(** Which calls to the driver are rejected by the environment (server
    unreachable, connection lost, statement refused for a reason outside
    this model). *)
Record faults : Type := mkFaults {
  connect_fails : bool;
  begin_fails : bool;
  insert_fails : bool;
  commit_fails : bool;
  rollback_fails : bool
}.

Definition noFaults : faults := mkFaults false false false false false.

Module Db.

(** A checked-out client: the committed table, the rows inserted by the
    open transaction if there is one, and the statements sent so far. *)
Record client : Type := mkClient {
  table : list row;
  txn : option (list row);
  sent : list sql
}.

(** [age INTEGER NOT NULL]: the parameter must be a 32-bit integer. *)
Definition validRow (r : row) : bool :=
  match col_age r with
  | Some (VNum (Int z)) => ((- 2 ^ 31 <=? z) && (z <? 2 ^ 31))%Z
  | _ => false
  end.

(** Does the server accept the statement?  A multi-row INSERT needs at
    least one row after VALUES, and every row must satisfy the column
    constraints of the table. *)
Definition accepts (q : sql) : bool :=
  match q with
  | INSERT rows =>
      match rows with [] => false | _ :: _ => forallb validRow rows end
  | _ => true
  end.

(** Effect of an accepted statement *)
Definition exec (q : sql) (c : client) : client :=
  match q with
  | BEGIN => mkClient (table c) (Some []) (sent c)
  | INSERT rows =>
      match txn c with
      | Some pending => mkClient (table c) (Some (pending ++ rows)) (sent c)
      | None => mkClient (table c ++ rows) None (sent c)
      end
  | COMMIT =>
      match txn c with
      | Some pending => mkClient (table c ++ pending) None (sent c)
      | None => c
      end
  | ROLLBACK => mkClient (table c) None (sent c)
  end.

(** Code that uses a client and may throw *)
Definition M (A : Type) : Type := client -> client * completion A.

Definition ret {A : Type} (a : A) : M A := fun c => (c, Return a).

Definition throw {A : Type} (e : exn) : M A := fun c => (c, Throw e).

Definition bind {A B : Type} (m : M A) (k : A -> M B) : M B :=
  fun c =>
    match m c with
    | (c', Return a) => k a c'
    | (c', Throw e) => (c', Throw e)
    end.

(** [try { body } catch (error) { handler error }] *)
Definition tryCatch {A : Type} (body : M A) (handler : exn -> M A) : M A :=
  fun c =>
    match body c with
    | (c', Return a) => (c', Return a)
    | (c', Throw e) => handler e c'
    end.

Definition lift {A : Type} (r : completion A) : M A := fun c => (c, r).

(** [await client.query(q)]: a rejected or refused statement has no
    effect and throws. *)
Definition query (fails : bool) (q : sql) : M unit :=
  fun c =>
    let c' := mkClient (table c) (txn c) (sent c ++ [q]) in
    if fails || negb (accepts q)
    then (c', Throw (Error "query failed"))
    else (exec q c', Return tt).

End Db.

Declare Scope db_scope.
Delimit Scope db_scope with db.
Notation "x <- m ;; k" := (Db.bind m (fun x => k))
  (at level 61, m at next level, right associativity) : db_scope.
Notation "m ;;; k" := (Db.bind m (fun _ => k))
  (at level 61, right associativity) : db_scope.

(** The service object: [pool] is set by [initializeDatabase]; [users] is
    the committed content of the table. *)
Record database : Type := mkDatabase {
  pool : bool;
  users : list row
}.

(** ** [DatabaseService.uploadUsersBatch] *)

Module Js.

(** [ToString] as a template literal applies it; [None] is [undefined]. *)
Definition toStr (v : option jsvalue) : string :=
  match v with
  | None => "undefined"
  | Some (VStr s) => s
  | Some (VNum n) => JsNumber.toString n
  | Some (VObj _) => "[object Object]"
  end.

(** [ToBoolean] *)
Definition truthy (v : jsvalue) : bool :=
  match v with
  | VStr s => negb (isEmpty s)
  | VNum NaN => false
  | VNum (Int z) => negb (z =? 0)%Z
  | VObj _ => true
  end.

(** [v.key] for a value that is not [undefined] or [null] *)
Definition prop (v : jsvalue) (key : string) : option jsvalue :=
  match v with
  | VObj o => Obj.get o key
  | _ => None
  end.

Fixpoint indexed (i : nat) (s : string) : object :=
  match s with
  | EmptyString => []
  | String c r => (of_nat i, VStr (String c EmptyString)) :: indexed (S i) r
  end.

(** [{ ...v }]: the own enumerable properties of [v], none for
    [undefined] *)
Definition spread (v : option jsvalue) : object :=
  match v with
  | Some (VObj o) => o
  | Some (VStr s) => indexed 0 s
  | _ => []
  end.

End Js.

(** The body of the [for (const userData of usersData)] loop: the four
    parameters pushed for one record. *)
Definition userRow (userData : object) : completion row :=
  let name := Obj.get userData "name" in
  let age := Obj.get userData "age" in
  let additional_info := Obj.get userData "additional_info" in
  let additionalInfo := Js.spread additional_info in
  let '(address, additionalInfo) :=
    match match additional_info with
          | Some v => Js.prop v "address"
          | None => None
          end with
    | Some a =>
        if Js.truthy a
        then (Some a, Obj.remove additionalInfo "address")
        else (None, additionalInfo)
    | None => (None, additionalInfo)
    end in
  match name with
  | None => Throw (undefinedProperty "firstName")
  | Some n =>
      let fullName :=
        (Js.toStr (Js.prop n "firstName") ++ " "
         ++ Js.toStr (Js.prop n "lastName"))%string in
      Return (mkRow fullName age address
                (if Obj.nonEmpty additionalInfo
                 then Some (VObj additionalInfo)
                 else None))
  end.

Fixpoint userRows (usersData : list object) : completion (list row) :=
  match usersData with
  | [] => Return []
  | userData :: rest =>
      match userRow userData with
      | Throw e => Throw e
      | Return r =>
          match userRows rest with
          | Throw e => Throw e
          | Return rs => Return (r :: rs)
          end
      end
  end.

Open Scope db_scope.

(** The [try] block with its [catch]: BEGIN, one INSERT for the whole
    batch, COMMIT; on any exception ROLLBACK, then the exception is thrown
    again (or the one ROLLBACK raised). *)
Definition uploadTransaction (f : faults) (usersData : list object)
  : Db.M nat :=
  Db.tryCatch
    (Db.query (begin_fails f) BEGIN ;;;
     rows <- Db.lift (userRows usersData) ;;
     Db.query (insert_fails f) (INSERT rows) ;;;
     Db.query (commit_fails f) COMMIT ;;;
     Db.ret (List.length usersData))
    (fun error =>
       Db.query (rollback_fails f) ROLLBACK ;;;
       Db.throw error).

Close Scope db_scope.

(** [uploadUsersBatch(usersData)]: the result is the store afterwards, the
    statements sent on the client, and the count returned or the exception
    thrown.  A transaction still open when the client is released is never
    committed. *)
Definition uploadUsersBatch (d : database) (f : faults)
    (usersData : list object) : database * list sql * completion nat :=
  if negb (pool d) then (d, [], Throw (Error "Database not initialized"))
  else if connect_fails f then (d, [], Throw (Error "connect failed"))
  else
    let '(c, r) := uploadTransaction f usersData (Db.mkClient (users d) None [])
    in (mkDatabase (pool d) (Db.table c), Db.sent c, r).

(** ** The run: [parseCSVFile] under the upload handler of [app.js] *)

(** The listener suspended at an [await onBatch(batch)]: the ['line']
    listener or the ['close'] listener. *)
Inductive origin : Type :=
| FromLine
| FromClose.

(** What the handler answers: the 200 summary, or the 500 failure. *)
Inductive response : Type :=
| Summary (recordsProcessed errors : nat)
| Failure (error : string).

(** The state of one run.  [headers], [batch], [totalProcessed],
    [totalErrors] and [currLine] are the variables of [parseCSVFile] that
    its listeners share; [appProcessed] and [appErrors] are [totalProcessed]
    and [totalErrors] of the handler in [app.js]; [store] is the table,
    [error_log] the lines appended to [error_log.txt], [reply] the answer
    once it is determined.  [batch] names an array of [arrays], the heap of
    batch arrays: [batch.push] changes the array in place, [batch = []]
    makes the variable name a new array, and an array handed to the callback
    stays the same array while the listener is suspended ([suspended] lists
    the waiting listeners with the array each one handed over).  [handed]
    records the argument of every call of the callback as it was at the
    call. *)
Record state : Type := mkState {
  headers : option (list string);
  batch : nat;
  totalProcessed : nat;
  totalErrors : nat;
  currLine : nat;
  arrays : list (list object);
  suspended : list (origin * nat);
  appProcessed : nat;
  appErrors : nat;
  store : database;
  error_log : list string;
  handed : list (list object);
  reply : option response
}.

(** What the event loop delivers to the run.  The listeners are [async]
    functions registered with [readL.on]: [EventEmitter] calls a listener
    synchronously and drops the promise it returns, so a listener suspended
    at [await onBatch(batch)] does not hold back the next event.  [Line] and
    [Close] run a listener up to its [await] (or to its end); [Settled k f]
    finishes the write awaited by the [k]-th suspended listener, under the
    faults [f], and runs what follows the [await]; [StreamError] is the
    ['error'] event of the stream. *)
Inductive event : Type :=
| Line (line : string)
| Close
| Settled (k : nat) (f : faults)
| StreamError (error : string).

Module Run.

Definition batchArray (st : state) : list object :=
  nth (batch st) (arrays st) [].

Fixpoint pushAt (ref : nat) (x : object) (heap : list (list object))
  : list (list object) :=
  match heap, ref with
  | [], _ => []
  | a :: r, O => (a ++ [x]) :: r
  | a :: r, S n => a :: pushAt n x r
  end.

Fixpoint removeNth {A : Type} (k : nat) (l : list A) : list A :=
  match l, k with
  | [], _ => []
  | _ :: r, O => r
  | a :: r, S n => a :: removeNth n r
  end.

(** The state after the handler has removed the old error log and
    [clearUsersTable] has emptied the table (the pool exists). *)
Definition start : state :=
  mkState None 0 0 0 0 [[]] [] 0 0 (mkDatabase true []) [] [] None.

(** [currLine++] *)
Definition nextLine (st : state) : state :=
  mkState (headers st) (batch st) (totalProcessed st) (totalErrors st)
    (S (currLine st)) (arrays st) (suspended st) (appProcessed st)
    (appErrors st) (store st) (error_log st) (handed st) (reply st).

(** [headers = ...] *)
Definition setHeaders (hs : list string) (st : state) : state :=
  mkState (Some hs) (batch st) (totalProcessed st) (totalErrors st)
    (currLine st) (arrays st) (suspended st) (appProcessed st)
    (appErrors st) (store st) (error_log st) (handed st) (reply st).

(** The [catch] block of the ['line'] listener: count the error and
    append [Line n: message] to the error log (the file write is taken to
    succeed). *)
Definition catchLine (error : exn) (st : state) : state :=
  let errorMessage :=
    ("Line " ++ of_nat (currLine st) ++ ": " ++ message error
     ++ lineFeed)%string in
  mkState (headers st) (batch st) (totalProcessed st) (S (totalErrors st))
    (currLine st) (arrays st) (suspended st) (appProcessed st)
    (appErrors st) (store st) (error_log st ++ [errorMessage]) (handed st)
    (reply st).

(** [batch.push(parsedObject)] *)
Definition push (parsedObject : object) (st : state) : state :=
  mkState (headers st) (batch st) (totalProcessed st) (totalErrors st)
    (currLine st) (pushAt (batch st) parsedObject (arrays st))
    (suspended st) (appProcessed st) (appErrors st) (store st)
    (error_log st) (handed st) (reply st).

(** [await onBatch(batch)]: the callback receives the array [batch] names
    and the listener is suspended. *)
Definition awaitOnBatch (o : origin) (st : state) : state :=
  mkState (headers st) (batch st) (totalProcessed st) (totalErrors st)
    (currLine st) (arrays st) (suspended st ++ [(o, batch st)])
    (appProcessed st) (appErrors st) (store st) (error_log st)
    (handed st ++ [batchArray st]) (reply st).

(** [resolve({...})], after which the handler builds the summary from its
    own counters and the parser's [totalErrors]; a promise settles once.
    Between the two the handler awaits the age report, which only reads the
    table: [reply] is the answer of a handler whose report succeeds and
    during whose report no write settles.  (A report that rejects makes the
    handler answer 500; a write that settles during the report still
    changes the counters the summary is built from.) *)
Definition resolve (st : state) : state :=
  mkState (headers st) (batch st) (totalProcessed st) (totalErrors st)
    (currLine st) (arrays st) (suspended st) (appProcessed st)
    (appErrors st) (store st) (error_log st) (handed st)
    (match reply st with
     | Some r => Some r
     | None => Some (Summary (appProcessed st)
                       (totalErrors st + appErrors st))
     end).

(** [reject(error)]: the handler's [catch] answers 500. *)
Definition reject (error : string) (st : state) : state :=
  mkState (headers st) (batch st) (totalProcessed st) (totalErrors st)
    (currLine st) (arrays st) (suspended st) (appProcessed st)
    (appErrors st) (store st) (error_log st) (handed st)
    (match reply st with
     | Some r => Some r
     | None => Some (Failure error)
     end).

(** The ['line'] listener, up to its [await] *)
Definition onLine (line : string) (st0 : state) : state :=
  let st := nextLine st0 in
  match headers st with
  | None =>
      let hs := parseCSVLine line in
      let st := setHeaders hs st in
      match validateMandatoryFields hs with
      | Throw error => catchLine error st
      | Return _ => st
      end
  | Some hs =>
      if isEmpty (trim line) then st
      else
        match convertRowToObject hs (parseCSVLine line) with
        | Throw error => catchLine error st
        | Return parsedObject =>
            let st := push parsedObject st in
            if (batchSize <=? List.length (batchArray st))%nat
            then awaitOnBatch FromLine st
            else st
        end
  end.

(** The ['close'] listener, up to its [await] *)
Definition onClose (st : state) : state :=
  if (0 <? List.length (batchArray st))%nat
  then awaitOnBatch FromClose st
  else resolve st.

(** The callback of [app.js]: [uploadUsersBatch] on the array it was
    handed, as the array is when the write runs; success adds the array's
    length to the handler's [totalProcessed], an exception adds it to the
    handler's [totalErrors] and is not thrown further. *)
Definition onBatch (f : faults) (usersData : list object) (st : state)
  : state :=
  let '(d, _, r) := uploadUsersBatch (store st) f usersData in
  let n := List.length usersData in
  mkState (headers st) (batch st) (totalProcessed st) (totalErrors st)
    (currLine st) (arrays st) (suspended st)
    (match r with Return _ => appProcessed st + n | Throw _ => appProcessed st end)
    (match r with Return _ => appErrors st | Throw _ => appErrors st + n end)
    d (error_log st) (handed st) (reply st).

(** What follows [await onBatch(batch)] in the listener [o]:
    [totalProcessed += batch.length], then [batch = []] in the ['line']
    listener and [resolve] in the ['close'] listener.  [waiting] are the
    listeners still suspended. *)
Definition resume (o : origin) (waiting : list (origin * nat)) (st : state)
  : state :=
  let total := totalProcessed st + List.length (batchArray st) in
  match o with
  | FromLine =>
      mkState (headers st) (List.length (arrays st)) total (totalErrors st)
        (currLine st) (arrays st ++ [[]]) waiting (appProcessed st)
        (appErrors st) (store st) (error_log st) (handed st) (reply st)
  | FromClose =>
      resolve
        (mkState (headers st) (batch st) total (totalErrors st)
           (currLine st) (arrays st) waiting (appProcessed st)
           (appErrors st) (store st) (error_log st) (handed st) (reply st))
  end.

Definition onSettled (k : nat) (f : faults) (st : state) : state :=
  match nth_error (suspended st) k with
  | None => st
  | Some (o, ref) =>
      resume o (removeNth k (suspended st))
        (onBatch f (nth ref (arrays st) []) st)
  end.

Definition step (st : state) (e : event) : state :=
  match e with
  | Line line => onLine line st
  | Close => onClose st
  | Settled k f => onSettled k f st
  | StreamError error => reject error st
  end.

Definition run (events : list event) : state :=
  fold_left step events start.

(** Delivery in which the write a listener awaits settles before the next
    event arrives; [plan n] gives the faults of the [n]-th write. *)
Definition settleNow (plan : nat -> faults) (st : state) : state :=
  match suspended st with
  | [] => st
  | _ :: _ => step st (Settled 0 (plan (List.length (handed st) - 1)))
  end.

Definition runSerial (plan : nat -> faults) (lines : list string) : state :=
  settleNow plan
    (step
       (fold_left (fun st line => settleNow plan (step st (Line line)))
          lines start)
       Close).

End Run.

(** ** Inputs named in the statements *)

(** The line [She said QQhiQQ], where Q is the quote character (code unit
    34): the text in an unquoted field *)
Definition unquotedEscapeLine : string :=
  "She said "
  ++ String dquote (String dquote ("hi" ++ String dquote (String dquote EmptyString))).

(** The line [QShe said QQhiQQQ]: the same text as a quoted field *)
Definition quotedEscapeLine : string :=
  String dquote
    ("She said "
     ++ String dquote
          (String dquote
             ("hi" ++ String dquote (String dquote (String dquote EmptyString))))).

(** The header line with exactly the mandatory paths, and a valid row *)
Definition mandatoryHeader : string := "name.firstName,name.lastName,age".

Definition validRowLine : string := "Rohit,Prasad,35".

(** All the lines of a file in one chunk: [readline] emits them one after
    the other, and nothing settles in between. *)
Definition burst (lines : list string) : list event := map Line lines.

(** The faults under which exactly the second write has its INSERT
    rejected *)
Definition secondWriteFails (n : nat) : faults :=
  if Nat.eqb n 1 then mkFaults false false true false false else noFaults.

(** A failure during the insert: BEGIN, the INSERT or COMMIT is rejected,
    building the parameters throws, or the server refuses the statement. *)
Definition insertFails (f : faults) (usersData : list object) : Prop :=
  begin_fails f = true
  \/ insert_fails f = true
  \/ commit_fails f = true
  \/ (exists e, userRows usersData = Throw e)
  \/ (exists rows,
        userRows usersData = Return rows
        /\ Db.accepts (INSERT rows) = false).

(** The size bound of a batch handed to the writer *)
Definition wellSized (b : list object) : Prop :=
  1 <= List.length b <= batchSize.

(** Between events of a serial delivery no listener is suspended, and the
    batch in flight is below the bound. *)
Definition quiet (st : state) : Prop :=
  suspended st = []
  /\ batch st < List.length (arrays st)
  /\ List.length (Run.batchArray st) < batchSize
  /\ Forall wellSized (handed st).

(** ** Notions used in the further properties *)

(** Does the string start, or end, with a white space character? *)
Definition startsWithSpace (s : string) : bool :=
  match s with
  | EmptyString => false
  | String c _ => isWhiteSpace c
  end.

Fixpoint endsWithSpace (s : string) : bool :=
  match s with
  | EmptyString => false
  | String c EmptyString => isWhiteSpace c
  | String _ r => endsWithSpace r
  end.

(** A field written the CSV way: between quote characters, with every
    quote character of the field doubled. *)
Fixpoint escapeQuotes (s : string) : string :=
  match s with
  | EmptyString => EmptyString
  | String c r =>
      if Ascii.eqb c dquote
      then String dquote (String dquote (escapeQuotes r))
      else String c (escapeQuotes r)
  end.

Definition quoteField (field : string) : string :=
  String dquote (escapeQuotes field ++ String dquote EmptyString).

(** A line of quoted fields *)
Definition quotedLine (fields : list string) : string :=
  join "," (map quoteField fields).

(** The shape of a materialized record: [name] holds an object with string
    leaves [firstName] and [lastName] only, [age] a number that is not below
    zero, [additional_info] a non-empty object; there is no other key. *)
Definition nameShape (o : object) : Prop :=
  forall k v,
    Obj.get o k = Some v ->
    (k = "firstName" \/ k = "lastName") /\ exists s, v = VStr s.

Definition recordShape (r : object) : Prop :=
  forall k v,
    Obj.get r k = Some v ->
    (k = "name" /\ exists o, v = VObj o /\ nameShape o)
    \/ (k = "age" /\ exists n, v = VNum n /\ ltZero n = false)
    \/ (k = "additional_info" /\ exists o, v = VObj o /\ o <> []).

(** Parts of that shape, for the record under construction *)
Definition coreShape (r : object) : Prop :=
  forall k v,
    Obj.get r k = Some v ->
    (k = "name" /\ exists o, v = VObj o /\ nameShape o)
    \/ (k = "age" /\ exists n, v = VNum n /\ ltZero n = false).

Definition hasFirst (vals : list string) (r : object) : Prop :=
  exists o a,
    Obj.get r "name" = Some (VObj o)
    /\ Obj.get o "firstName" = Some (VStr a) /\ In a vals.

Definition hasLast (vals : list string) (r : object) : Prop :=
  exists o a,
    Obj.get r "name" = Some (VObj o)
    /\ Obj.get o "lastName" = Some (VStr a) /\ In a vals.

Definition hasAge (r : object) : Prop :=
  exists n, Obj.get r "age" = Some (VNum n) /\ ltZero n = false.

Definition nameOf (r : object) : object :=
  match Obj.get r "name" with
  | Some (VObj o) => o
  | _ => []
  end.

(** Does the record give the INSERT a usable row: a [name] to read the two
    names from, and a 32-bit integer [age]? *)
Definition usableRecord (r : object) : bool :=
  match Obj.get r "name", Obj.get r "age" with
  | Some _, Some (VNum (Int z)) => ((- 2 ^ 31 <=? z) && (z <? 2 ^ 31))%Z
  | _, _ => false
  end.

Definition isLine (e : event) : bool :=
  match e with
  | Line _ => true
  | _ => false
  end.

(** A line that is not blank *)
Definition nonBlank (line : string) : bool := negb (isEmpty (trim line)).

(** Bookkeeping kept by every step of the run *)
Definition booked (st : state) : Prop :=
  List.length (users (store st)) = appProcessed st
  /\ List.length (error_log st) = totalErrors st
  /\ Forall (fun entry => String.prefix "Line " entry = true) (error_log st).

(** Under serial delivery, between events: no listener is suspended, no
    answer has been given, a header is in place, the table has one row for
    each record counted as processed, and [n] rows are accounted for: as row
    errors, in settled batches, or in the batch in flight. *)
Definition accounted (n : nat) (st : state) : Prop :=
  suspended st = []
  /\ batch st < List.length (arrays st)
  /\ reply st = None
  /\ headers st <> None
  /\ totalErrors st + appProcessed st + appErrors st
     + List.length (Run.batchArray st) = n
  /\ List.length (users (store st)) = appProcessed st.








(** The keys of an object, in order *)
Definition keys (o : object) : list string := map fst o.

(** * Properties *)

(** ** Row tokenizer *)

Section Tokenizer.

(** Every pass of the loop keeps the fields found so far, and the flush
    after the loop adds one. *)
Lemma parseCSVLine_loop_fields (n : nat) :
  forall line values current insideQuotes,
    String.length line <= n ->
    S (List.length values)
    <= List.length (parseCSVLine_loop line values current insideQuotes).
Proof.
  induction n as [|n IH]; intros line values current q Hn.
  - destruct line; simpl in *; [|lia].
    rewrite length_app; simpl; lia.
  - destruct line as [|c rest]; simpl.
    + rewrite length_app; simpl; lia.
    + simpl in Hn.
      destruct (Ascii.eqb c dquote).
      * destruct rest as [|next rest'].
        -- apply IH; simpl; lia.
        -- destruct (q && Ascii.eqb next dquote);
             apply IH; simpl in *; lia.
      * destruct (Ascii.eqb c comma && negb q).
        -- etransitivity; [|apply IH; lia].
           rewrite length_app; simpl; lia.
        -- apply IH; lia.
Qed.

(** The escaped-quote rule: inside quotes, two quote characters in a row
    put one quote character into the field and leave the state as it is. *)
Lemma escaped_quote_inside (rest : string) (values : list string)
    (current : string) :
  parseCSVLine_loop (String dquote (String dquote rest)) values current true
  = parseCSVLine_loop rest values (push_char current dquote) true.
Proof. reflexivity. Qed.

(** Outside quotes a quote character only opens a quoted part. *)
Lemma quote_outside (rest : string) (values : list string)
    (current : string) :
  parseCSVLine_loop (String dquote rest) values current false
  = parseCSVLine_loop rest values current true.
Proof. destruct rest; reflexivity. Qed.

End Tokenizer.

(** C9: the tokenizer returns for every line, unbalanced quotes included (it
    is a total function with no exception path), the result always has a
    first field, and the empty line gives exactly one empty field. *)
Theorem parseCSVLine_total (line : string) :
  (exists first rest, parseCSVLine line = first :: rest)
  /\ 1 <= List.length (parseCSVLine line)
  /\ parseCSVLine EmptyString = [EmptyString].
Proof.
  assert (H : 1 <= List.length (parseCSVLine line)).
  { unfold parseCSVLine.
    apply (parseCSVLine_loop_fields (String.length line) line [] EmptyString false).
    lia. }
  split; [|split; [exact H | reflexivity]].
  destruct (parseCSVLine line) as [|first rest]; simpl in H; [lia|].
  exists first, rest; reflexivity.
Qed.

(** C6, as stated, fails: no field of the tokenized line [She said QQhiQQ]
    (Q the quote character) holds a quote character. *)
Lemma unquoted_escape_loses_quotes :
  ~ exists field,
      In field (parseCSVLine unquotedEscapeLine)
      /\ contains_char dquote field = true.
Proof.
  intros [field [Hin Hq]].
  vm_compute in Hin.
  destruct Hin as [<-|[]].
  vm_compute in Hq. discriminate.
Qed.

(** C6, amended: the line [She said QQhiQQ] (Q the quote character) gives
    the single field [She said hi], because outside quotes each quote
    character only switches the quote state; the escape rule puts a literal
    quote into the field only inside a quoted part, so the quoted line
    [QShe said QQhiQQQ] gives [She said QhiQ]. *)
Theorem escape_rule_needs_quoted_field :
  parseCSVLine unquotedEscapeLine = ["She said hi"]
  /\ parseCSVLine quotedEscapeLine
     = [("She said " ++ String dquote ("hi" ++ String dquote EmptyString))%string]
  /\ (forall rest values current,
        parseCSVLine_loop (String dquote (String dquote rest)) values current
          true
        = parseCSVLine_loop rest values (push_char current dquote) true)
  /\ (forall rest values current,
        parseCSVLine_loop (String dquote rest) values current false
        = parseCSVLine_loop rest values current true).
Proof.
  split; [reflexivity|].
  split; [reflexivity|].
  split; [exact escaped_quote_inside | exact quote_outside].
Qed.

(** ** Path materializer *)

Section Objects.

Lemma get_set_same (o : object) (key : string) (v : jsvalue) :
  Obj.get (Obj.set o key v) key = Some v.
Proof.
  induction o as [|[k w] r IH]; simpl.
  - now rewrite String.eqb_refl.
  - destruct (String.eqb k key) eqn:E; simpl; rewrite E; auto.
Qed.

Lemma get_set_other (o : object) (key key' : string) (v : jsvalue) :
  key <> key' ->
  Obj.get (Obj.set o key v) key' = Obj.get o key'.
Proof.
  intros Hne.
  assert (Hf : String.eqb key key' = false) by now apply String.eqb_neq.
  induction o as [|[k w] r IH]; simpl.
  - now rewrite Hf.
  - destruct (String.eqb k key) eqn:E; simpl.
    + apply String.eqb_eq in E; subst k. now rewrite Hf.
    + now rewrite IH.
Qed.

End Objects.

Section Materializer.

(** A row that ends before the headers do makes the loop throw. *)
Lemma convertRow_loop_short (hs : list string) :
  forall i values result additionalInfo,
    i <= List.length values ->
    List.length values < i + List.length hs ->
    exists e,
      convertRow_loop hs i values result additionalInfo = Throw e
      /\ (e = undefinedProperty "trim"
          \/ exists v, In v values /\ e = invalidAgeError (trim v)).
Proof.
  induction hs as [|h hs IH]; intros i values result ai Hi Hlen;
    cbn [convertRow_loop List.length] in *; [lia|].
  destruct (nth_error values i) as [v|] eqn:Hv.
  - assert (Hlt : i < List.length values)
      by (apply nth_error_Some; congruence).
    destruct (includes mandatoryFields (trim h)).
    + destruct (String.eqb (trim h) "age" && invalidAge (trim v)).
      * eexists; split; [reflexivity|].
        right. exists v. split; [eapply nth_error_In; eauto | reflexivity].
      * apply IH; lia.
    + apply IH; lia.
  - eexists; split; [reflexivity | now left].
Qed.

(** Values past the last header are never read. *)
Lemma convertRow_loop_extra (hs : list string) :
  forall i values extra result additionalInfo,
    i + List.length hs <= List.length values ->
    convertRow_loop hs i (values ++ extra) result additionalInfo
    = convertRow_loop hs i values result additionalInfo.
Proof.
  induction hs as [|h hs IH]; intros i values extra result ai Hlen;
    cbn [convertRow_loop List.length] in *; [reflexivity|].
  rewrite nth_error_app1 by lia.
  destruct (nth_error values i) as [v|]; [|reflexivity].
  destruct (includes mandatoryFields (trim h)).
  - destruct (String.eqb (trim h) "age" && invalidAge (trim v));
      [reflexivity | apply IH; lia].
  - apply IH; lia.
Qed.

(** The loop stops at the first [age] column whose value is invalid. *)
Lemma convertRow_loop_age (i : nat) :
  forall hs i0 values result additionalInfo h v,
    nth_error hs i = Some h ->
    trim h = "age" ->
    nth_error values (i0 + i) = Some v ->
    invalidAge (trim v) = true ->
    exists j h' v',
      j <= i
      /\ nth_error hs j = Some h' /\ trim h' = "age"
      /\ nth_error values (i0 + j) = Some v'
      /\ invalidAge (trim v') = true
      /\ convertRow_loop hs i0 values result additionalInfo
         = Throw (invalidAgeError (trim v')).
Proof.
  induction i as [|i IH]; intros hs i0 values result ai h v Hh Hage Hv Hbad;
    destruct hs as [|h0 hs]; simpl in Hh; try discriminate.
  - injection Hh as ->.
    exists 0, h, v. rewrite Nat.add_0_r in *.
    cbn [convertRow_loop]. rewrite Hv, Hage, Hbad.
    repeat split; auto.
  - assert (Hlt : i0 < List.length values).
    { assert (i0 + S i < List.length values)
        by (apply nth_error_Some; congruence). lia. }
    destruct (nth_error values i0) as [v0|] eqn:Hv0;
      [|apply nth_error_None in Hv0; lia].
    replace (i0 + S i) with (S i0 + i) in Hv by lia.
    destruct (includes mandatoryFields (trim h0)
              && (String.eqb (trim h0) "age" && invalidAge (trim v0)))
      eqn:Hstop.
    + apply andb_prop in Hstop as [Hm Hstop].
      pose proof Hstop as Hstop'.
      apply andb_prop in Hstop' as [Ha Hb].
      apply String.eqb_eq in Ha.
      exists 0, h0, v0. rewrite Nat.add_0_r.
      cbn [convertRow_loop]. rewrite Hv0, Hm, Hstop.
      repeat split; auto. lia.
    + destruct (IH hs (S i0) values
                  (if includes mandatoryFields (trim h0)
                   then setNestedProperty result (trim h0) (trim v0)
                   else result)
                  (if includes mandatoryFields (trim h0)
                   then ai
                   else setNestedProperty ai (trim h0) (trim v0))
                  h v Hh Hage Hv Hbad)
        as (j & h' & v' & Hj & Hh' & Hage' & Hv' & Hbad' & Hrun).
      exists (S j), h', v'.
      replace (i0 + S j) with (S i0 + j) by lia.
      cbn [convertRow_loop]. rewrite Hv0.
      repeat split; auto; try lia.
      destruct (includes mandatoryFields (trim h0)); cbn [andb] in Hstop.
      * rewrite Hstop. exact Hrun.
      * exact Hrun.
Qed.

End Materializer.

Section AgeStrings.

Lemma digit_not_space (c : ascii) :
  isDigit c = true -> isWhiteSpace c = false /\ isSign c = false.
Proof.
  destruct c as [[] [] [] [] [] [] [] []]; vm_compute; intros H;
    try discriminate H; split; reflexivity.
Qed.

Lemma trimEnd_digits (s : string) :
  allChars isDigit s = true -> trimEnd s = s.
Proof.
  induction s as [|c r IH]; simpl; [reflexivity|].
  intros H. apply andb_prop in H as [Hc Hr].
  destruct (digit_not_space c Hc) as [-> _]. simpl.
  now rewrite IH.
Qed.

Lemma trim_digits (s : string) :
  allChars isDigit s = true -> trim s = s.
Proof.
  intros H. unfold trim.
  assert (Hs : trimStart s = s).
  { destruct s as [|c r]; simpl in *; [reflexivity|].
    apply andb_prop in H as [Hc _].
    now destruct (digit_not_space c Hc) as [-> _]. }
  rewrite Hs. now apply trimEnd_digits.
Qed.

Lemma skipDigits_digits (s : string) :
  allChars isDigit s = true -> skipDigits s = EmptyString.
Proof.
  induction s as [|c r IH]; simpl; [reflexivity|].
  intros H. apply andb_prop in H as [-> Hr]. auto.
Qed.

(** A string of decimal digits is numeric. *)
Lemma digits_numeric (s : string) :
  digits1 isDigit s = true -> isNaN s = false.
Proof.
  unfold digits1, isNaN, isNumericString. intros H.
  apply andb_prop in H as [Hne Hall].
  rewrite (trim_digits s Hall).
  destruct s as [|c r]; [discriminate|].
  pose proof Hall as Hall'.
  simpl in Hall'. apply andb_prop in Hall' as [Hc Hr].
  destruct (digit_not_space c Hc) as [_ Hsign].
  cbn [isEmpty dropSign orb]. rewrite Hsign.
  unfold strUnsignedDecimalLiteral.
  rewrite (skipDigits_digits _ Hall).
  cbn [startsWithDigit exponentPart_opt]. rewrite Hc.
  now rewrite orb_true_r.
Qed.

(** [parseInt] is negative only for text that starts, after leading white
    space, with a minus sign. *)
Lemma parseInt_sign (s : string) (radix : N) :
  match trimStart s with
  | String c _ => Ascii.eqb c "-"
  | EmptyString => false
  end = false ->
  ltZero (parseInt s radix) = false.
Proof.
  intros H. unfold parseInt. rewrite H.
  destruct (negb (radix =? 0)%N && ((radix <? 2)%N || (36 <? radix)%N));
    [reflexivity|].
  destruct (if (radix =? 0)%N || (radix =? 16)%N
            then stripHexPrefix (dropSign (trimStart s))
            else None) as [r|];
    match goal with
    | |- context [parseDigits ?R ?S None] =>
        destruct (parseDigits R S None) as [m|]
    end; cbn [ltZero]; try reflexivity;
    apply Z.ltb_ge; apply N2Z.is_nonneg.
Qed.

Lemma digits_pass (value : string) :
  digits1 isDigit value = true -> invalidAge value = false.
Proof.
  intros H. unfold invalidAge.
  rewrite (digits_numeric value H).
  pose proof H as H'. unfold digits1 in H'.
  apply andb_prop in H' as [Hne Hall].
  destruct value as [|c r]; [discriminate|].
  cbn [isEmpty orb].
  apply parseInt_sign.
  simpl in Hall. apply andb_prop in Hall as [Hc _].
  destruct (digit_not_space c Hc) as [Hw Hs].
  cbn [trimStart]. rewrite Hw.
  unfold isSign in Hs. apply orb_false_elim in Hs as [_ Hs]. exact Hs.
Qed.

Lemma digit_value (c : ascii) :
  isDigit c = true ->
  exists d,
    digitValue c = Some d
    /\ (d <? 10)%N = true
    /\ (d = 0%N -> Ascii.eqb c "0" = true).
Proof.
  destruct c as [[] [] [] [] [] [] [] []]; intros H;
    try (vm_compute in H; discriminate H);
    (eexists; split; [vm_compute; reflexivity|];
     split; [reflexivity|]; intros H0; try discriminate H0; reflexivity).
Qed.

Lemma parseDigits_decimal (ds : string) :
  forall a,
    allChars isDigit ds = true ->
    exists m,
      parseDigits 10 ds (Some a) = Some m
      /\ (a <= m)%N
      /\ (allChars (Ascii.eqb "0"%char) ds = false -> (0 < m)%N).
Proof.
  induction ds as [|c r IH]; intros a Hall.
  - exists a. simpl. repeat split; [lia | discriminate].
  - cbn [allChars] in Hall. apply andb_prop in Hall as [Hc Hr].
    destruct (digit_value c Hc) as (d & Hd & Hlt & Hzero).
    cbn [parseDigits]. rewrite Hd, Hlt.
    destruct (IH (a * 10 + d)%N Hr) as (m & Hm & Hle & Hpos).
    exists m. split; [exact Hm|]. split; [lia|].
    cbn [allChars]. intros Hnz.
    destruct (N.eq_dec d 0) as [Hd0|Hd0].
    + rewrite Ascii.eqb_sym in Hnz. rewrite (Hzero Hd0) in Hnz.
      apply Hpos. exact Hnz.
    + lia.
Qed.

Lemma stripHexPrefix_digits (ds : string) :
  allChars isDigit ds = true -> stripHexPrefix ds = None.
Proof.
  destruct ds as [|c [|p r]]; intros H;
    [reflexivity | now destruct c as [[] [] [] [] [] [] [] []] |].
  cbn [allChars] in H.
  apply andb_prop in H as [_ H]. apply andb_prop in H as [Hp _].
  unfold stripHexPrefix.
  assert (Hx : Ascii.eqb p "x" || Ascii.eqb p "X" = false).
  { destruct p as [[] [] [] [] [] [] [] []];
      try (vm_compute in Hp; discriminate Hp); reflexivity. }
  rewrite Hx.
  destruct c as [[] [] [] [] [] [] [] []]; reflexivity.
Qed.

(** A minus sign before decimal digits that are not all zero is rejected. *)
Lemma negative_integer_rejected (ds : string) :
  digits1 isDigit ds = true ->
  allChars (Ascii.eqb "0"%char) ds = false ->
  invalidAge (String "-" ds) = true.
Proof.
  unfold digits1. intros H Hnz.
  apply andb_prop in H as [Hne Hall].
  unfold invalidAge.
  assert (Hneg : ltZero (parseInt (String "-" ds) 0) = true).
  { unfold parseInt.
    change (trimStart (String "-" ds)) with (String "-"%char ds).
    cbn [dropSign].
    change (isSign "-") with true.
    change (Ascii.eqb "-" "-") with true. cbv iota.
    change (negb (0 =? 0)%N && ((0 <? 2)%N || (36 <? 0)%N)) with false.
    change ((0 =? 0)%N || (0 =? 16)%N) with true.
    change (if (0 =? 0)%N then 10%N else 0%N) with 10%N. cbv iota.
    rewrite (stripHexPrefix_digits ds Hall).
    destruct ds as [|c r]; [discriminate|].
    cbn [allChars] in Hall. apply andb_prop in Hall as [Hc Hr].
    destruct (digit_value c Hc) as (d & Hd & Hlt & Hzero).
    cbn [parseDigits]. rewrite Hd, Hlt.
    destruct (parseDigits_decimal r d Hr) as (m & -> & Hle & Hpos).
    cbn [ltZero]. apply Z.ltb_lt.
    assert (0 < m)%N; [|lia].
    cbn [allChars] in Hnz.
    destruct (N.eq_dec d 0) as [Hd0|Hd0]; [|lia].
    rewrite Ascii.eqb_sym in Hnz. rewrite (Hzero Hd0) in Hnz.
    apply Hpos. exact Hnz. }
  rewrite Hneg. now rewrite !orb_true_r.
Qed.
(** A value between -1 and 0 has no negative [parseInt] and passes. *)
Example negative_fraction_passes : invalidAge "-0.5" = false.
Proof. reflexivity. Qed.

Lemma prefix_append (p s : string) : String.prefix p (p ++ s) = true.
Proof.
  induction p as [|c p IH]; simpl; [now destruct s|].
  destruct (ascii_dec c c); [exact IH | contradiction].
Qed.

Lemma is_infix_here (p s : string) : is_infix p (p ++ s) = true.
Proof.
  pose proof (prefix_append p s) as H.
  destruct (p ++ s)%string; cbn [is_infix]; rewrite H; reflexivity.
Qed.

Lemma is_infix_later (p a s : string) :
  is_infix p s = true -> is_infix p (a ++ s) = true.
Proof.
  intros H. induction a as [|c a IH]; simpl; [exact H|].
  rewrite IH. apply orb_true_r.
Qed.

(** The message of the age error quotes the rejected value. *)
Lemma invalidAge_message (value : string) :
  is_infix value (message (invalidAgeError value)) = true.
Proof.
  unfold invalidAgeError, message.
  apply is_infix_later.
  change (String dquote value ++ ?t)%string
    with (String dquote (value ++ t))%string.
  apply (is_infix_later value (String dquote EmptyString)).
  apply is_infix_here.
Qed.

End AgeStrings.

Section NestedPaths.



End NestedPaths.

(** ** Row errors in the run *)

Section RowErrors.

(** A row that fails materialization only reaches the [catch] block. *)
Lemma onLine_row_error (st : state) (hs : list string) (line : string)
    (e : exn) :
  headers st = Some hs ->
  isEmpty (trim line) = false ->
  convertRowToObject hs (parseCSVLine line) = Throw e ->
  Run.step st (Line line) = Run.catchLine e (Run.nextLine st).
Proof.
  intros Hhs Hline Hrow.
  unfold Run.step, Run.onLine.
  cbn [headers Run.nextLine]. rewrite Hhs, Hline, Hrow. reflexivity.
Qed.

Lemma invalidAge_cases (value : string) :
  value = EmptyString \/ isNaN value = true
  \/ ltZero (parseInt value 0) = true ->
  invalidAge value = true.
Proof.
  unfold invalidAge. intros [->|[->| ->]]; [reflexivity| |];
    rewrite ?orb_true_r; reflexivity.
Qed.

End RowErrors.

(** C4, as stated, fails: a row with two values under three headers makes
    materialization throw. *)
Lemma short_row_throws :
  let headers := ["name.firstName"; "name.lastName"; "age"] in
  let values := ["Rohit"; "Prasad"] in
  List.length values < List.length headers
  /\ convertRowToObject headers values = Throw (undefinedProperty "trim")
  /\ ~ exists record, convertRowToObject headers values = Return record.
Proof.
  cbv zeta. split; [simpl; lia|].
  split; [reflexivity|].
  intros [record H]. vm_compute in H. discriminate.
Qed.

(** C4, amended: row length is not checked before materialization, but a raw
    row whose value list is shorter than the header list always makes
    materialization fail, for every header whose paths have no key
    [__proto__]: reading the first missing value raises a TypeError, unless
    an invalid age value is met before it; no Record is produced.  In the
    run such a row is skipped and logged like any row error: nothing is
    added to the batch, nothing is handed to the writer or stored, the
    parser counts one more error and the error log receives
    [Line n: message] with the row's line number.  Only values beyond the
    header list are ignored. *)
Theorem row_shorter_than_header_fails (hs values extra : list string) :
  protoFreeHeaders hs = true ->
  (List.length values < List.length hs ->
   exists e,
     convertRowToObject hs values = Throw e
     /\ (e = undefinedProperty "trim"
         \/ exists v, In v values /\ e = invalidAgeError (trim v))
     /\ forall st line,
          headers st = Some hs ->
          isEmpty (trim line) = false ->
          parseCSVLine line = values ->
          let st' := Run.step st (Line line) in
          arrays st' = arrays st
          /\ batch st' = batch st
          /\ handed st' = handed st
          /\ suspended st' = suspended st
          /\ store st' = store st
          /\ appProcessed st' = appProcessed st
          /\ totalProcessed st' = totalProcessed st
          /\ totalErrors st' = S (totalErrors st)
          /\ currLine st' = S (currLine st)
          /\ error_log st'
             = error_log st
               ++ [("Line " ++ of_nat (S (currLine st)) ++ ": " ++ message e
                    ++ lineFeed)%string])
  /\ (List.length hs <= List.length values ->
      convertRowToObject hs (values ++ extra)
      = convertRowToObject hs values).
Proof.
  intros _. unfold convertRowToObject at 1. split; intros H.
  - destruct (convertRow_loop_short hs 0 values [] []) as [e [Hrun He]];
      [lia | simpl; lia |].
    rewrite Hrun.
    exists e. split; [reflexivity|]. split; [exact He|].
    intros st line Hhs Hline Hvalues. cbv zeta.
    rewrite (onLine_row_error st hs line e Hhs Hline)
      by (rewrite Hvalues; unfold convertRowToObject; now rewrite Hrun).
    repeat split; reflexivity.
  - unfold convertRowToObject.
    rewrite convertRow_loop_extra by (simpl; lia). reflexivity.
Qed.

Lemma row_shorter_than_header_fails_witness :
  (exists e,
     convertRowToObject ["name.firstName"; "name.lastName"; "age"; "city"]
       ["Rohit"; "Prasad"; "35"] = Throw e
     /\ (e = undefinedProperty "trim"
         \/ exists v, In v ["Rohit"; "Prasad"; "35"]
                      /\ e = invalidAgeError (trim v))
     /\ forall st line,
          headers st
          = Some ["name.firstName"; "name.lastName"; "age"; "city"] ->
          isEmpty (trim line) = false ->
          parseCSVLine line = ["Rohit"; "Prasad"; "35"] ->
          let st' := Run.step st (Line line) in
          arrays st' = arrays st
          /\ batch st' = batch st
          /\ handed st' = handed st
          /\ suspended st' = suspended st
          /\ store st' = store st
          /\ appProcessed st' = appProcessed st
          /\ totalProcessed st' = totalProcessed st
          /\ totalErrors st' = S (totalErrors st)
          /\ currLine st' = S (currLine st)
          /\ error_log st'
             = error_log st
               ++ [("Line " ++ of_nat (S (currLine st)) ++ ": " ++ message e
                    ++ lineFeed)%string])
  /\ convertRowToObject ["name.firstName"; "name.lastName"; "age"]
       (["Rohit"; "Prasad"; "35"] ++ ["Pune"])
     = convertRowToObject ["name.firstName"; "name.lastName"; "age"]
         ["Rohit"; "Prasad"; "35"].
Proof.
  split.
  - apply (row_shorter_than_header_fails
             ["name.firstName"; "name.lastName"; "age"; "city"]
             ["Rohit"; "Prasad"; "35"] []).
    + reflexivity.
    + simpl. lia.
  - apply (row_shorter_than_header_fails
             ["name.firstName"; "name.lastName"; "age"]
             ["Rohit"; "Prasad"; "35"] ["Pune"]).
    + reflexivity.
    + simpl. lia.
Defined.

(** The row of the witness in a run: after the header with a [city] path,
    the line [Rohit,Prasad,35] is logged with its line number and nothing
    is stored. *)
Example short_row_in_a_run :
  let st := Run.run [Line "name.firstName,name.lastName,age,city";
                     Line "Rohit,Prasad,35"; Close] in
  error_log st
  = [("Line 2: " ++ message (undefinedProperty "trim") ++ lineFeed)%string]
  /\ totalErrors st = 1
  /\ handed st = []
  /\ users (store st) = [].
Proof. vm_compute. repeat split; reflexivity. Qed.



(** The same within one row: the header [pet] gives a leaf, the later
    header [pet.name] replaces it by an object. *)
Example conflict_in_one_row :
  convertRowToObject ["name.firstName"; "name.lastName"; "age"; "pet"; "pet.name"]
    ["Rohit"; "Prasad"; "35"; "dog"; "Rex"]
  = Return
      [("name", VObj [("firstName", VStr "Rohit"); ("lastName", VStr "Prasad")]);
       ("age", VNum (Int 35));
       ("additional_info", VObj [("pet", VObj [("name", VStr "Rex")])])].
Proof. reflexivity. Qed.


(** ** The age check *)

(** What the age check does reject.  For a header whose paths have no key
    [__proto__]: if the trimmed value under an [age] header is empty, is
    not numeric ([isNaN]), or has a negative [parseInt],
    [convertRowToObject] throws at the first such column, with a message
    that quotes the rejected value; if no [age] header comes before, that
    is this very value.  A non-empty string of decimal digits passes the
    check, and a minus sign before decimal digits that are not all zero is
    rejected.  The values [-10] and [pi] are rejected.  In the run, a row
    that throws is not added to the batch, nothing is handed to the writer
    or stored, and the error log receives a line [Line n: ...] with the
    row's line number. *)
Lemma invalid_age_row_is_rejected :
  (forall hs values i h v,
      protoFreeHeaders hs = true ->
      nth_error hs i = Some h ->
      trim h = "age" ->
      nth_error values i = Some v ->
      trim v = EmptyString \/ isNaN (trim v) = true
      \/ ltZero (parseInt (trim v) 0) = true ->
      (exists j h' v',
          j <= i
          /\ nth_error hs j = Some h' /\ trim h' = "age"
          /\ nth_error values j = Some v'
          /\ invalidAge (trim v') = true
          /\ convertRowToObject hs values
             = Throw (invalidAgeError (trim v'))
          /\ is_infix (trim v') (message (invalidAgeError (trim v'))) = true)
      /\ ((forall k hk, k < i -> nth_error hs k = Some hk ->
                        trim hk <> "age") ->
          convertRowToObject hs values
          = Throw (invalidAgeError (trim v))))
  /\ (forall value, digits1 isDigit value = true -> invalidAge value = false)
  /\ (forall digits,
        digits1 isDigit digits = true ->
        allChars (Ascii.eqb "0"%char) digits = false ->
        invalidAge (String "-"%char digits) = true)
  /\ (invalidAge "-10" = true /\ invalidAge "pi" = true)
  /\ (forall st hs line e,
        protoFreeHeaders hs = true ->
        headers st = Some hs ->
        isEmpty (trim line) = false ->
        convertRowToObject hs (parseCSVLine line) = Throw e ->
        let st' := Run.step st (Line line) in
        arrays st' = arrays st
        /\ handed st' = handed st
        /\ suspended st' = suspended st
        /\ store st' = store st
        /\ totalErrors st' = S (totalErrors st)
        /\ error_log st'
           = error_log st
             ++ [("Line " ++ of_nat (S (currLine st)) ++ ": " ++ message e
                  ++ lineFeed)%string])
  /\ (let st := Run.run [Line mandatoryHeader; Line "Rohit,Prasad,-10";
                         Line "Asha,Rao,pi"; Close] in
      error_log st
      = [("Line 2: " ++ message (invalidAgeError "-10") ++ lineFeed)%string;
         ("Line 3: " ++ message (invalidAgeError "pi") ++ lineFeed)%string]
      /\ totalErrors st = 2
      /\ handed st = []
      /\ users (store st) = []).
Proof.
  split; [|split; [|split; [|split; [|split]]]].
  - intros hs values i h v _ Hh Hage Hv Hbad.
    apply invalidAge_cases in Hbad.
    destruct (convertRow_loop_age i hs 0 values [] [] h v Hh Hage Hv Hbad)
      as (j & h' & v' & Hj & Hh' & Hage' & Hv' & Hbad' & Hrun).
    cbn [Nat.add] in Hv'.
    assert (Hthrow : convertRowToObject hs values
                     = Throw (invalidAgeError (trim v')))
      by (unfold convertRowToObject; now rewrite Hrun).
    split.
    + exists j, h', v'. repeat split; auto. apply invalidAge_message.
    + intros Hfirst.
      assert (j = i).
      { destruct (Nat.eq_dec j i) as [|Hne]; [assumption|].
        exfalso. apply (Hfirst j h'); [lia | assumption | assumption]. }
      subst j. rewrite Hv in Hv'. injection Hv' as <-. exact Hthrow.
  - exact digits_pass.
  - exact negative_integer_rejected.
  - split; reflexivity.
  - intros st hs line e _ Hhs Hline Hrow st'. subst st'.
    rewrite (onLine_row_error st hs line e Hhs Hline Hrow).
    repeat split; reflexivity.
  - vm_compute. repeat split; reflexivity.
Qed.

(** C5, on the code: the age check lets a negative value through.  The
    value [-0.5] is numeric and below zero, but the check compares
    [parseInt(value)] with 0, and [parseInt] of [-0.5] is -0, which is not
    below 0.  The row passes, its age leaf is that -0 (the number [Int 0]
    here), the record is handed to the writer and stored, and nothing is
    counted or logged as an error, where the message of the check asks for
    a valid positive number. *)
Theorem negative_fraction_age_is_stored :
  isNaN "-0.5" = false
  /\ parseInt "-0.5" 0 = Int 0
  /\ invalidAge "-0.5" = false
  /\ convertRowToObject ["name.firstName"; "name.lastName"; "age"]
       ["Rohit"; "Prasad"; "-0.5"]
     = Return
         [("name", VObj [("firstName", VStr "Rohit");
                         ("lastName", VStr "Prasad")]);
          ("age", VNum (Int 0))]
  /\ (let st := Run.run [Line mandatoryHeader; Line "Rohit,Prasad,-0.5";
                         Close; Settled 0 noFaults] in
      error_log st = []
      /\ totalErrors st = 0
      /\ appErrors st = 0
      /\ handed st
         = [[[("name", VObj [("firstName", VStr "Rohit");
                             ("lastName", VStr "Prasad")]);
              ("age", VNum (Int 0))]]]
      /\ users (store st)
         = [mkRow "Rohit Prasad" (Some (VNum (Int 0))) None None]
      /\ appProcessed st = 1).
Proof. vm_compute. repeat split; reflexivity. Qed.

(** ** Transactional batch writer *)

Section Writer.

Ltac run_writer :=
  unfold uploadUsersBatch, uploadTransaction, Db.tryCatch, Db.bind,
    Db.query, Db.lift, Db.throw, Db.ret;
  cbn [pool users connect_fails begin_fails insert_fails commit_fails
       rollback_fails negb orb andb Db.accepts Db.exec Db.table Db.txn
       Db.sent fst snd].

(** An exception out of [uploadUsersBatch] leaves the store as it was;
    if the client was obtained, the last statement sent is ROLLBACK. *)
Lemma uploadUsersBatch_throw (d : database) (f : faults)
    (usersData : list object) d' sent e :
  uploadUsersBatch d f usersData = (d', sent, Throw e) ->
  d' = d
  /\ (pool d = true -> connect_fails f = false ->
      exists before, sent = before ++ [ROLLBACK]).
Proof.
  destruct d as [p us]; destruct f as [cf bf inf cmf rf].
  run_writer.
  destruct p; cbn [negb];
    [|intros H; injection H as <- <- <-; split; [reflexivity | discriminate]].
  destruct cf;
    [intros H; injection H as <- <- <-; split; [reflexivity | discriminate]|].
  destruct bf; cbn [orb].
  - destruct rf; cbn [orb]; intros H; injection H as <- <- <-;
      (split; [reflexivity | intros _ _; now exists [BEGIN]]).
  - destruct (userRows usersData) as [rows|e'].
    + destruct (inf || negb match rows with
                            | [] => false
                            | _ :: _ => forallb Db.validRow rows
                            end) eqn:Hins.
      * destruct rf; cbn [orb]; intros H; injection H as <- <- <-;
          (split; [reflexivity
                  | intros _ _; now exists [BEGIN; INSERT rows]]).
      * destruct cmf; cbn [orb]; [|discriminate].
        destruct rf; cbn [orb]; intros H; injection H as <- <- <-;
          (split; [reflexivity
                  | intros _ _; now exists [BEGIN; INSERT rows; COMMIT]]).
    + destruct rf; cbn [orb]; intros H; injection H as <- <- <-;
        (split; [reflexivity | intros _ _; now exists [BEGIN]]).
Qed.

(** A failure during the insert comes out as an exception. *)
Lemma uploadUsersBatch_fails (d : database) (f : faults)
    (usersData : list object) :
  pool d = true ->
  connect_fails f = false ->
  insertFails f usersData ->
  exists e sent, uploadUsersBatch d f usersData = (d, sent, Throw e).
Proof.
  destruct d as [p us]; destruct f as [cf bf inf cmf rf].
  cbn [pool connect_fails]. intros -> -> Hfail.
  unfold insertFails in Hfail.
  cbn [begin_fails insert_fails commit_fails] in Hfail.
  run_writer.
  destruct bf; cbn [orb].
  - destruct rf; cbn [orb]; eauto.
  - destruct (userRows usersData) as [rows|e'] eqn:Hrows.
    + assert (Hor : (inf || negb (Db.accepts (INSERT rows))) = true
                    \/ cmf = true).
      { destruct Hfail as [H|[H|[H|[[e H]|[rows' [H1 H2]]]]]];
          try discriminate.
        - left. now rewrite H.
        - now right.
        - injection H1 as <-. left. rewrite H2. apply orb_true_r. }
      cbn [Db.accepts] in Hor.
      destruct (inf || negb match rows with
                            | [] => false
                            | _ :: _ => forallb Db.validRow rows
                            end).
      * destruct rf; cbn [orb]; eauto.
      * destruct Hor as [Hor| ->]; [discriminate|].
        cbn [orb]. destruct rf; cbn [orb]; eauto.
    + destruct rf; cbn [orb]; eauto.
Qed.


Lemma nth_fresh (A : Type) (l : list A) (x d : A) :
  nth (List.length l) (l ++ [x]) d = x.
Proof. induction l; simpl; auto. Qed.

End Writer.

(** C3: the batch write is all or nothing.  When a failure occurs during the
    insert of the batch a suspended listener awaits, [uploadUsersBatch]
    sends ROLLBACK last and throws, and the store is as before, so none of
    the batch's records persist; the callback adds the batch's length to the
    error tally and nothing to the processed count; the run is not aborted:
    the listener resumes, and after the ['line'] listener the next batch
    starts empty, while after the ['close'] listener the summary is
    produced. *)
Theorem failed_batch_rolls_back_and_run_goes_on
    (st : state) (k : nat) (o : origin) (ref : nat) (f : faults) :
  nth_error (suspended st) k = Some (o, ref) ->
  pool (store st) = true ->
  connect_fails f = false ->
  insertFails f (nth ref (arrays st) []) ->
  let usersData := nth ref (arrays st) [] in
  let st' := Run.step st (Settled k f) in
  (exists e before,
      uploadUsersBatch (store st) f usersData
      = (store st, before ++ [ROLLBACK], Throw e))
  /\ store st' = store st
  /\ appProcessed st' = appProcessed st
  /\ appErrors st' = appErrors st + List.length usersData
  /\ (forall error, reply st' = Some (Failure error) ->
                    reply st = Some (Failure error))
  /\ suspended st' = Run.removeNth k (suspended st)
  /\ (o = FromLine -> Run.batchArray st' = [] /\ reply st' = reply st)
  /\ (o = FromClose -> reply st = None ->
      reply st' = Some (Summary (appProcessed st)
                          (totalErrors st + (appErrors st
                                             + List.length usersData)))).
Proof.
  intros Hk Hpool Hconn Hfail usersData st'.
  destruct (uploadUsersBatch_fails (store st) f usersData Hpool Hconn Hfail)
    as (e & sent & Hup).
  destruct (uploadUsersBatch_throw _ _ _ _ _ _ Hup) as [_ Hsent].
  destruct (Hsent Hpool Hconn) as [before ->].
  split; [now exists e, before|].
  subst st'. unfold Run.step, Run.onSettled. rewrite Hk.
  unfold Run.onBatch. fold usersData. rewrite Hup.
  destruct o; unfold Run.resume, Run.resolve;
    cbn [store appProcessed appErrors reply suspended arrays batch
         Run.batchArray];
    (split; [reflexivity|]); (split; [reflexivity|]);
    (split; [reflexivity|]); (split; [|split; [reflexivity|split]]).
  - auto.
  - intros _. split; [apply nth_fresh | reflexivity].
  - discriminate.
  - intros error H. destruct (reply st) as [r|]; [exact H | discriminate].
  - discriminate.
  - intros _ ->. reflexivity.
Qed.

Lemma failed_batch_rolls_back_and_run_goes_on_witness :
  let st := Run.run (burst [mandatoryHeader; validRowLine] ++ [Close]) in
  let st' := Run.step st (Settled 0 (mkFaults false false true false true)) in
  store st' = store st
  /\ appProcessed st' = 0
  /\ appErrors st' = 1
  /\ reply st' = Some (Summary 0 1).
Proof.
  cbv zeta.
  pose proof (failed_batch_rolls_back_and_run_goes_on
                (Run.run (burst [mandatoryHeader; validRowLine] ++ [Close]))
                0 FromClose 0 (mkFaults false false true false true)
                eq_refl eq_refl eq_refl
                (or_intror (or_introl eq_refl))) as H.
  cbv zeta in H.
  destruct H as (_ & Hstore & Hproc & Herr & _ & _ & _ & Hreply).
  split; [exact Hstore|].
  split; [exact Hproc|].
  split; [exact Herr|].
  exact (Hreply eq_refl eq_refl).
Defined.

(** ** The run *)

Section SerialDelivery.

Variable plan : nat -> faults.

Lemma pushAt_length (ref : nat) (x : object) (heap : list (list object)) :
  List.length (Run.pushAt ref x heap) = List.length heap.
Proof.
  revert ref. induction heap as [|a r IH]; intros [|n]; simpl; auto.
Qed.

Lemma pushAt_nth (ref : nat) (x : object) (heap : list (list object)) :
  ref < List.length heap ->
  nth ref (Run.pushAt ref x heap) [] = nth ref heap [] ++ [x].
Proof.
  revert ref. induction heap as [|a r IH]; intros [|n] H; simpl in *;
    try lia; auto.
  apply IH. lia.
Qed.

Lemma onBatch_fields (f : faults) (usersData : list object) (st : state) :
  let st' := Run.onBatch f usersData st in
  headers st' = headers st /\ batch st' = batch st
  /\ arrays st' = arrays st /\ suspended st' = suspended st
  /\ handed st' = handed st /\ reply st' = reply st
  /\ totalErrors st' = totalErrors st.
Proof.
  unfold Run.onBatch.
  destruct (uploadUsersBatch (store st) f usersData) as [[d s] r].
  repeat split; reflexivity.
Qed.

Lemma quiet_start : quiet Run.start.
Proof.
  unfold quiet, Run.start, Run.batchArray, batchSize; simpl.
  repeat split; auto; lia.
Qed.

Lemma settleNow_quiet (st : state) :
  suspended st = [] -> Run.settleNow plan st = st.
Proof. unfold Run.settleNow. now intros ->. Qed.

(** A flush started by the ['line'] listener and settled at once leaves a
    new empty batch. *)
Lemma flush_line_quiet (st : state) :
  suspended st = [] ->
  batch st < List.length (arrays st) ->
  Forall wellSized (handed st) ->
  wellSized (Run.batchArray st) ->
  quiet (Run.settleNow plan (Run.awaitOnBatch FromLine st)).
Proof.
  intros Hs Hb Hh Hw.
  unfold Run.settleNow, Run.awaitOnBatch.
  cbn [suspended handed]. rewrite Hs. cbn [app].
  unfold Run.step, Run.onSettled.
  cbn [suspended nth_error Run.removeNth arrays batch].
  match goal with
  | |- quiet (Run.resume _ _ (Run.onBatch ?f ?u ?s)) =>
      destruct (onBatch_fields f u s)
        as (_ & Hb' & Ha' & _ & Hh' & _ & _);
      remember (Run.onBatch f u s) as st1 eqn:E; clear E
  end.
  cbn [batch arrays handed] in Hb', Ha', Hh'.
  unfold quiet, Run.resume, Run.batchArray.
  cbn [suspended batch arrays handed].
  rewrite Ha', Hh'. rewrite nth_fresh, length_app.
  unfold batchSize. simpl. repeat split; try lia.
  apply Forall_app. split; [assumption | now constructor].
Qed.

Lemma quiet_line (st : state) (line : string) :
  quiet st ->
  quiet (Run.settleNow plan (Run.step st (Line line))).
Proof.
  intros (Hs & Hb & Hl & Hh).
  unfold Run.step, Run.onLine. cbn [headers Run.nextLine].
  destruct (headers st) as [hs|].
  - destruct (isEmpty (trim line)).
    + rewrite settleNow_quiet by exact Hs.
      repeat split; assumption.
    + destruct (convertRowToObject hs (parseCSVLine line)) as [obj|e].
      * assert (Hpush : Run.batchArray (Run.push obj (Run.nextLine st))
                        = Run.batchArray st ++ [obj]).
        { unfold Run.batchArray, Run.push, Run.nextLine.
          cbn [batch arrays]. now apply pushAt_nth. }
        assert (Hlen : List.length
                         (Run.batchArray (Run.push obj (Run.nextLine st)))
                       = S (List.length (Run.batchArray st))).
        { rewrite Hpush, length_app. simpl. lia. }
        destruct (batchSize <=? List.length
                    (Run.batchArray (Run.push obj (Run.nextLine st))))%nat
          eqn:Hfull.
        -- apply Nat.leb_le in Hfull.
           apply flush_line_quiet; cbn [suspended batch arrays handed
                                        Run.push Run.nextLine]; auto.
           ++ now rewrite pushAt_length.
           ++ unfold wellSized. lia.
        -- apply Nat.leb_gt in Hfull.
           rewrite settleNow_quiet by exact Hs.
           unfold quiet. rewrite Hlen in *.
           cbn [suspended batch arrays handed Run.push Run.nextLine].
           rewrite pushAt_length. repeat split; auto.
      * rewrite settleNow_quiet by exact Hs.
        repeat split; assumption.
  - destruct (validateMandatoryFields (parseCSVLine line));
      rewrite settleNow_quiet by exact Hs;
      repeat split; assumption.
Qed.

Lemma quiet_lines (lines : list string) :
  forall st,
    quiet st ->
    quiet (fold_left
             (fun st line => Run.settleNow plan (Run.step st (Line line)))
             lines st).
Proof.
  induction lines as [|line lines IH]; intros st Hq; simpl; auto.
  apply IH. now apply quiet_line.
Qed.

Lemma quiet_close (st : state) :
  quiet st ->
  Forall wellSized (handed (Run.settleNow plan (Run.step st Close))).
Proof.
  intros (Hs & Hb & Hl & Hh).
  unfold Run.step, Run.onClose.
  destruct (0 <? List.length (Run.batchArray st))%nat eqn:Hne.
  - apply Nat.ltb_lt in Hne.
    unfold Run.settleNow, Run.awaitOnBatch.
    cbn [suspended handed]. rewrite Hs. cbn [app].
    unfold Run.step, Run.onSettled.
    cbn [suspended nth_error Run.removeNth arrays batch].
    match goal with
    | |- Forall _ (handed (Run.resume _ _ (Run.onBatch ?f ?u ?s))) =>
        destruct (onBatch_fields f u s)
          as (_ & _ & _ & _ & Hh' & _ & _);
        remember (Run.onBatch f u s) as st1 eqn:E; clear E
    end.
    cbn [handed] in Hh'.
    unfold Run.resume, Run.resolve. cbn [handed]. rewrite Hh'.
    apply Forall_app. split; [assumption|].
    constructor; [|constructor]. unfold wellSized. lia.
  - rewrite settleNow_quiet by (unfold Run.resolve; exact Hs).
    unfold Run.resolve. exact Hh.
Qed.

(** Under serial delivery every batch handed to the writer has between
    one and [batchSize] records. *)
Lemma serial_batches_wellSized (lines : list string) :
  Forall wellSized (handed (Run.runSerial plan lines)).
Proof.
  unfold Run.runSerial. apply quiet_close. apply quiet_lines.
  exact quiet_start.
Qed.

End SerialDelivery.

Section AnyDelivery.

(** Whatever the order of events, the writer is never handed an empty
    array: a call follows a push that filled the batch, or the test
    [batch.length > 0] of the ['close'] listener. *)
Lemma step_handed_nonempty (st : state) (e : event) :
  Forall (fun b => 1 <= List.length b) (handed st) ->
  Forall (fun b => 1 <= List.length b) (handed (Run.step st e)).
Proof.
  intros H. destruct e as [line| |k f|error]; cbn [Run.step].
  - unfold Run.onLine. cbn [headers Run.nextLine].
    destruct (headers st) as [hs|].
    + destruct (isEmpty (trim line)); [exact H|].
      destruct (convertRowToObject hs (parseCSVLine line)) as [obj|err];
        [|exact H].
      destruct (batchSize <=? List.length
                  (Run.batchArray (Run.push obj (Run.nextLine st))))%nat
        eqn:Hfull; [|exact H].
      apply Nat.leb_le in Hfull. unfold batchSize in Hfull.
      unfold Run.awaitOnBatch. cbn [handed Run.push Run.nextLine].
      apply Forall_app. split; [exact H|].
      constructor; [lia | constructor].
    + destruct (validateMandatoryFields (parseCSVLine line)); exact H.
  - unfold Run.onClose.
    destruct (0 <? List.length (Run.batchArray st))%nat eqn:Hne;
      [|exact H].
    apply Nat.ltb_lt in Hne.
    unfold Run.awaitOnBatch. cbn [handed].
    apply Forall_app. split; [exact H|].
    constructor; [lia | constructor].
  - unfold Run.onSettled.
    destruct (nth_error (suspended st) k) as [[o ref]|]; [|exact H].
    match goal with
    | |- Forall _ (handed (Run.resume _ _ (Run.onBatch ?f ?u ?s))) =>
        destruct (onBatch_fields f u s) as (_ & _ & _ & _ & Hh & _ & _);
        remember (Run.onBatch f u s) as st1 eqn:E; clear E
    end.
    cbn [handed] in Hh.
    destruct o; unfold Run.resume, Run.resolve; cbn [handed];
      rewrite Hh; exact H.
  - exact H.
Qed.

Lemma handed_nonempty (events : list event) :
  Forall (fun b => 1 <= List.length b) (handed (Run.run events)).
Proof.
  unfold Run.run.
  assert (Hgen : forall st,
             Forall (fun b => 1 <= List.length b) (handed st) ->
             Forall (fun b => 1 <= List.length b)
               (handed (fold_left Run.step events st))).
  { induction events as [|e events IH]; intros st H; simpl; auto.
    apply IH. now apply step_handed_nonempty. }
  apply Hgen. constructor.
Qed.

End AnyDelivery.

(** Under serial delivery, 2500 valid rows are flushed as batches of 1000,
    1000 and 500, and with the second write failing the summary counts 1500
    processed and 1000 errors. *)
Lemma serial_2500_rows :
  let st := Run.runSerial secondWriteFails
              (mandatoryHeader :: repeat validRowLine 2500) in
  map (@List.length object) (handed st) = [1000; 1000; 500]
  /\ reply st = Some (Summary 1500 1000)
  /\ List.length (users (store st)) = 1500.
Proof. vm_compute. repeat split; reflexivity. Qed.

(** A header without a mandatory path is handled like a bad row: the
    exception is caught, counted and logged, the header stays in place and
    the run goes on. *)
Lemma header_failure_caught (line : string) :
  missingMandatory (parseCSVLine line) <> [] ->
  Run.run [Line line]
  = Run.catchLine
      (Error ("Missing mandatory fields: "
              ++ join ", " (missingMandatory (parseCSVLine line))))
      (Run.setHeaders (parseCSVLine line) (Run.nextLine Run.start)).
Proof.
  intros Hmiss. unfold Run.run. cbn [fold_left Run.step].
  unfold Run.onLine. cbn [headers Run.nextLine Run.start].
  unfold validateMandatoryFields.
  destruct (missingMandatory (parseCSVLine line)); [contradiction|].
  reflexivity.
Qed.

(** C1, on the code: a header line without the [age] path does not end the
    run.  The exception of [validateMandatoryFields] is caught by the
    ['line'] listener, which writes it to the error log as line 1; the
    header stays in place, the next row is materialized against it and
    handed to the writer, and the run ends with the summary. *)
Theorem missing_header_path_is_logged_and_run_goes_on :
  let st := Run.run [Line "name.firstName,name.lastName";
                     Line "Rohit,Prasad"; Close; Settled 0 noFaults] in
  reply st = Some (Summary 0 2)
  /\ error_log st
     = [("Line 1: Missing mandatory fields: age" ++ lineFeed)%string]
  /\ headers st = Some ["name.firstName"; "name.lastName"]
  /\ handed st
     = [[[("name", VObj [("firstName", VStr "Rohit");
                         ("lastName", VStr "Prasad")])]]]
  /\ users (store st) = [].
Proof. vm_compute. repeat split; reflexivity. Qed.

(** C2, on the code: when the 2500 rows arrive in one chunk, the ['line']
    listener hands the same growing array to the writer at every row from
    the 1000th on: 1501 calls with 1000, 1001, ..., 2500 records, all still
    awaited, instead of three batches of 1000, 1000 and 500.  Each write
    that then settles stores all 2500 rows: after two of them the table
    holds 5000 rows and the handler has counted 5000 records processed. *)
Theorem burst_of_2500_rows_flushes_1501_times :
  let st := Run.run (burst (mandatoryHeader :: repeat validRowLine 2500)) in
  let st2 := Run.step (Run.step st (Settled 0 noFaults)) (Settled 0 noFaults) in
  map (@List.length object) (handed st) = seq 1000 1501
  /\ List.length (suspended st) = 1501
  /\ List.length (arrays st) = 1
  /\ List.length (users (store st2)) = 5000
  /\ appProcessed st2 = 5000.
Proof. vm_compute. repeat split; reflexivity. Qed.

(** C8: header [name.firstName,name.lastName,age] and the row
    [Rohit,Prasad,35]: the table holds the one row with name
    [Rohit Prasad], age 35 and NULL in both JSON columns, and the summary
    counts one record processed and no error. *)
Theorem end_to_end_single_row :
  let st := Run.run [Line mandatoryHeader; Line validRowLine; Close;
                     Settled 0 noFaults] in
  users (store st) = [mkRow "Rohit Prasad" (Some (VNum (Int 35))) None None]
  /\ reply st = Some (Summary 1 0)
  /\ error_log st = []
  /\ suspended st = [].
Proof. vm_compute. repeat split; reflexivity. Qed.

(** C10, on the code: with 1001 rows in one chunk the writer is called a
    second time, with 1001 records. *)
Theorem burst_hands_over_1001_records :
  let st := Run.run (burst (mandatoryHeader :: repeat validRowLine 1001)) in
  map (@List.length object) (handed st) = [1000; 1001]
  /\ exists b, In b (handed st) /\ ~ wellSized b.
Proof.
  cbv zeta. split; [vm_compute; reflexivity|].
  exists (nth 1 (handed (Run.run (burst (mandatoryHeader
                                         :: repeat validRowLine 1001)))) []).
  split.
  - apply nth_In.
    replace (List.length (handed (Run.run (burst (mandatoryHeader
               :: repeat validRowLine 1001))))) with 2
      by (vm_compute; reflexivity).
    lia.
  - unfold wellSized.
    replace (List.length (nth 1 (handed (Run.run (burst (mandatoryHeader
               :: repeat validRowLine 1001)))) [])) with 1001
      by (vm_compute; reflexivity).
    unfold batchSize. lia.
Qed.

(** * Further properties *)

(** ** Row tokenizer *)

Section TokenizerFields.

Lemma append_assoc (a b c : string) :
  ((a ++ b) ++ c)%string = (a ++ (b ++ c))%string.
Proof. induction a as [|x a IH]; simpl; [reflexivity | now rewrite IH]. Qed.

Lemma trim_no_leading_space (s : string) : startsWithSpace (trim s) = false.
Proof.
  unfold trim.
  assert (H : startsWithSpace (trimStart s) = false).
  { induction s as [|c r IH]; simpl; [reflexivity|].
    destruct (isWhiteSpace c) eqn:E; [exact IH | simpl; exact E]. }
  destruct (trimStart s) as [|c r]; [reflexivity|].
  simpl in H. cbn [trimEnd]. rewrite H. simpl. exact H.
Qed.

Lemma trimEnd_no_trailing_space (s : string) :
  endsWithSpace (trimEnd s) = false.
Proof.
  induction s as [|c r IH]; [reflexivity|].
  cbn [trimEnd].
  destruct (isWhiteSpace c) eqn:Ec; cbn [andb].
  - destruct (trimEnd r) as [|d t] eqn:Er; [reflexivity|].
    cbn [isEmpty]. cbn [endsWithSpace]. exact IH.
  - destruct (trimEnd r) as [|d t] eqn:Er.
    + simpl. exact Ec.
    + cbn [endsWithSpace]. exact IH.
Qed.

Lemma trim_no_trailing_space (s : string) : endsWithSpace (trim s) = false.
Proof. apply trimEnd_no_trailing_space. Qed.

(** Whatever the loop has collected stays, and what it adds is trimmed. *)
Lemma parseCSVLine_loop_forall (P : string -> Prop) (n : nat) :
  (forall s, P (trim s)) ->
  forall line values current insideQuotes,
    String.length line <= n ->
    Forall P values ->
    Forall P (parseCSVLine_loop line values current insideQuotes).
Proof.
  intros HP. induction n as [|n IH]; intros line values current q Hn Hv.
  - destruct line; simpl in *; [|lia].
    apply Forall_app. split; [exact Hv | constructor; [apply HP | constructor]].
  - destruct line as [|c rest]; simpl.
    + apply Forall_app. split; [exact Hv | constructor; [apply HP | constructor]].
    + simpl in Hn.
      destruct (Ascii.eqb c dquote).
      * destruct rest as [|next rest'].
        -- apply IH; [simpl; lia | exact Hv].
        -- destruct (q && Ascii.eqb next dquote);
             (apply IH; [simpl in *; lia | exact Hv]).
      * destruct (Ascii.eqb c comma && negb q).
        -- apply IH; [lia|].
           apply Forall_app. split; [exact Hv | constructor; [apply HP | constructor]].
        -- apply IH; [lia | exact Hv].
Qed.

End TokenizerFields.

(** X1: no field returned by the tokenizer starts or ends with a white
    space character, also when the white space stood inside quotes. *)
Theorem parseCSVLine_fields_trimmed (line : string) :
  Forall (fun field => startsWithSpace field = false
                       /\ endsWithSpace field = false)
    (parseCSVLine line).
Proof.
  unfold parseCSVLine.
  apply (parseCSVLine_loop_forall _ (String.length line)).
  - intros s. split; [apply trim_no_leading_space | apply trim_no_trailing_space].
  - lia.
  - constructor.
Qed.

Section PlainLines.

Lemma plain_line_scan (line : string) :
  forall values current,
    contains_char dquote line = false ->
    parseCSVLine_loop line values current false
    = values ++ map trim (split_aux comma line current).
Proof.
  induction line as [|c rest IH]; intros values current Hq.
  - reflexivity.
  - cbn [contains_char] in Hq. apply orb_false_elim in Hq as [Hc Hrest].
    rewrite Ascii.eqb_sym in Hc.
    cbn [parseCSVLine_loop split_aux]. rewrite Hc.
    destruct (Ascii.eqb c comma); cbn [andb negb].
    + rewrite IH by exact Hrest. cbn [map].
      rewrite <- app_assoc. reflexivity.
    + apply IH. exact Hrest.
Qed.

End PlainLines.

(** X2: a line without quote characters is cut at every comma and each
    piece is trimmed: the result is [line.split(',')] with [trim] applied to
    every part, so it has one field more than the line has commas. *)
Theorem parseCSVLine_plain (line : string) :
  contains_char dquote line = false ->
  parseCSVLine line = map trim (split comma line).
Proof.
  intros H. unfold parseCSVLine, split.
  now rewrite plain_line_scan.
Qed.

Lemma parseCSVLine_plain_witness :
  parseCSVLine " a, b ,,c" = map trim (split comma " a, b ,,c").
Proof. apply parseCSVLine_plain. reflexivity. Defined.

Section QuotedLines.

Lemma quoted_field_scan (field : string) :
  forall rest values current,
    match rest with
    | String c _ => Ascii.eqb c dquote
    | EmptyString => false
    end = false ->
    parseCSVLine_loop (escapeQuotes field ++ String dquote rest) values
      current true
    = parseCSVLine_loop rest values (current ++ field) false.
Proof.
  induction field as [|c f IH]; intros rest values current Hrest.
  - cbn [escapeQuotes append].
    replace (current ++ EmptyString)%string with current
      by (clear; induction current; simpl; congruence).
    destruct rest as [|d rest']; [reflexivity|].
    cbn [parseCSVLine_loop]. rewrite Ascii.eqb_refl, Hrest. reflexivity.
  - cbn [escapeQuotes].
    replace (current ++ String c f)%string
      with (push_char current c ++ f)%string
      by (unfold push_char; now rewrite append_assoc).
    destruct (Ascii.eqb c dquote) eqn:Ec.
    + apply Ascii.eqb_eq in Ec. subst c.
      cbn [append]. rewrite escaped_quote_inside. apply IH. exact Hrest.
    + cbn [append parseCSVLine_loop]. rewrite Ec.
      rewrite andb_false_r. apply IH. exact Hrest.
Qed.

Lemma quoted_line_scan (fields : list string) :
  fields <> [] ->
  forall values,
    parseCSVLine_loop (quotedLine fields) values EmptyString false
    = values ++ map trim fields.
Proof.
  induction fields as [|f fs IH]; intros Hne values; [contradiction|].
  destruct fs as [|f2 fs].
  - unfold quotedLine, quoteField. cbn [map join].
    rewrite quote_outside, quoted_field_scan by reflexivity.
    reflexivity.
  - unfold quotedLine in *. cbn [map join] in *.
    unfold quoteField at 1. cbn [append].
    rewrite quote_outside.
    rewrite append_assoc. cbn [append].
    rewrite quoted_field_scan by reflexivity.
    cbn [parseCSVLine_loop append].
    change (Ascii.eqb "," dquote) with false.
    change (Ascii.eqb "," comma) with true. cbn [andb negb].
    rewrite IH by discriminate.
    rewrite <- app_assoc. reflexivity.
Qed.

End QuotedLines.

(** X3: reading back a line of quoted fields.  If every field is written
    between quote characters with its own quote characters doubled, and the
    fields are joined by commas, the tokenizer returns the fields again,
    each one trimmed; commas and quote characters inside the fields come
    back unchanged. *)
Theorem parseCSVLine_reads_quoted_fields (fields : list string) :
  fields <> [] ->
  parseCSVLine (quotedLine fields) = map trim fields.
Proof.
  intros H. unfold parseCSVLine.
  now rewrite quoted_line_scan.
Qed.

Lemma parseCSVLine_reads_quoted_fields_witness :
  parseCSVLine (quotedLine ["A-563, Rakshak Society"; String dquote "hi"])
  = map trim ["A-563, Rakshak Society"; String dquote "hi"].
Proof. apply parseCSVLine_reads_quoted_fields. discriminate. Defined.

(** ** Header validator *)

Section HeaderSet.

Lemma includes_In (l : list string) (x : string) :
  includes l x = true <-> In x l.
Proof.
  unfold includes. rewrite existsb_exists. split.
  - intros [y [Hy He]]. apply String.eqb_eq in He. now subst.
  - intros H. exists x. split; [exact H | apply String.eqb_refl].
Qed.

Lemma missingMandatory_In (headers : list string) (field : string) :
  In field (missingMandatory headers)
  <-> In field mandatoryFields /\ ~ In field headers.
Proof.
  unfold missingMandatory. rewrite filter_In.
  rewrite negb_true_iff, <- not_true_iff_false, includes_In. reflexivity.
Qed.

Lemma validate_passes_iff (headers : list string) :
  validateMandatoryFields headers = Return tt
  <-> forall field, In field mandatoryFields -> In field headers.
Proof.
  unfold validateMandatoryFields.
  pose proof (missingMandatory_In headers) as Hin.
  destruct (missingMandatory headers) as [|m ms] eqn:Hm;
    cbn [List.length Nat.ltb Nat.leb].
  - split; [|reflexivity].
    intros _ field Hf.
    destruct (in_dec string_dec field headers) as [H|H]; [exact H|].
    exfalso. apply (proj2 (Hin field)). now split.
  - split; [discriminate|].
    intros Hall. exfalso.
    destruct (proj1 (Hin m) (or_introl eq_refl)) as [Hmand Hnot].
    apply Hnot, Hall, Hmand.
Qed.

End HeaderSet.

(** X5: the header check passes exactly when each of the three mandatory
    paths occurs among the header fields, whatever their order and whatever
    else the header holds; when it fails, the exception names the missing
    paths, and only those. *)
Theorem validateMandatoryFields_spec (headers : list string) :
  (validateMandatoryFields headers = Return tt
   <-> forall field, In field mandatoryFields -> In field headers)
  /\ (forall e,
        validateMandatoryFields headers = Throw e ->
        exists missing,
          missing <> []
          /\ e = Error ("Missing mandatory fields: " ++ join ", " missing)
          /\ forall field,
               In field missing
               <-> In field mandatoryFields /\ ~ In field headers).
Proof.
  split; [apply validate_passes_iff|].
  unfold validateMandatoryFields.
  pose proof (missingMandatory_In headers) as Hin.
  destruct (missingMandatory headers) as [|m ms] eqn:Hm;
    cbn [List.length Nat.ltb Nat.leb]; [discriminate|].
  intros e He. injection He as <-.
  exists (m :: ms). split; [discriminate|]. split; [reflexivity | exact Hin].
Qed.

Lemma validateMandatoryFields_spec_witness :
  validateMandatoryFields ["age"; "city"; "name.lastName"; "name.firstName"]
  = Return tt
  /\ exists missing,
       missing <> []
       /\ Error "Missing mandatory fields: name.firstName, age"
          = Error ("Missing mandatory fields: " ++ join ", " missing).
Proof.
  split.
  - apply (proj1 (validateMandatoryFields_spec
                    ["age"; "city"; "name.lastName"; "name.firstName"])).
    simpl. intros field [<-|[<-|[<-|[]]]]; auto 10.
  - destruct (proj2 (validateMandatoryFields_spec ["Name.firstName"; "name.lastName"])
                (Error "Missing mandatory fields: name.firstName, age")
                eq_refl) as (missing & Hne & He & _).
    now exists missing.
Defined.

(** ** Nested path assignment *)

Section PathAssignment.

Lemma split_aux_nonempty (sep : ascii) (s cur : string) :
  split_aux sep s cur <> [].
Proof.
  revert cur. induction s as [|c r IH]; intros cur; simpl; [discriminate|].
  destruct (Ascii.eqb c sep); [discriminate | apply IH].
Qed.

Lemma getPath_empty_object (keys : list string) :
  keys <> [] -> Obj.getPath (VObj []) keys = None.
Proof. destruct keys; [contradiction | reflexivity]. Qed.

Lemma getPath_leaf (v : jsvalue) (keys : list string) :
  keys <> [] -> (forall o, v <> VObj o) -> Obj.getPath v keys = None.
Proof.
  destruct keys as [|k ks]; [contradiction|]. intros _ H.
  destruct v as [vs|vn|vo]; try reflexivity. exfalso. now apply (H vo).
Qed.

(** What was assigned along a path is found along that path. *)
Lemma assignPath_readback (keys : list string) :
  forall current lastKey value,
    keys <> [] ->
    Obj.getPath (VObj (assignPath current keys lastKey value)) keys
    = Some (leafValue lastKey value).
Proof.
  induction keys as [|k ks IH]; intros current lastKey value Hne;
    [contradiction|].
  destruct ks as [|k2 ks].
  - cbn [assignPath Obj.getPath]. now rewrite get_set_same.
  - cbn [assignPath]. cbn [Obj.getPath] in *.
    rewrite get_set_same. apply IH. discriminate.
Qed.

(** Assigning along a path leaves alone what lies off the path. *)
Lemma assignPath_frame (p : list string) :
  forall current a b q rest lastKey value,
    a <> b ->
    Obj.getPath (VObj (assignPath current (p ++ b :: rest) lastKey value))
      (p ++ a :: q)
    = Obj.getPath (VObj current) (p ++ a :: q).
Proof.
  induction p as [|k p IH]; intros current a b q rest lastKey value Hab.
  - cbn [app]. destruct rest as [|r0 rest]; cbn [assignPath Obj.getPath];
      rewrite get_set_other by congruence; reflexivity.
  - change ((k :: p) ++ b :: rest) with (k :: (p ++ b :: rest)).
    change ((k :: p) ++ a :: q) with (k :: (p ++ a :: q)).
    cbn [assignPath].
    destruct (p ++ b :: rest) as [|k1 tail] eqn:E;
      [destruct p; discriminate|].
    rewrite <- E. cbn [Obj.getPath]. rewrite get_set_same.
    rewrite IH by exact Hab.
    destruct (Obj.get current k) as [[vs|vn|vo]|]; try reflexivity.
    + rewrite getPath_empty_object by (destruct p; discriminate).
      symmetry. apply getPath_leaf; [destruct p; discriminate | discriminate].
    + rewrite getPath_empty_object by (destruct p; discriminate).
      symmetry. apply getPath_leaf; [destruct p; discriminate | discriminate].
    + apply getPath_empty_object. destruct p; discriminate.
Qed.

End PathAssignment.

(** X6: what [setNestedProperty] assigns can be read back.  For a path
    none of whose keys is [__proto__], following the keys of the path
    through the own properties of the updated object leads to the leaf,
    which is the number [parseInt(value, 10)] when the last key is [age]
    and the value is numeric, and the string itself otherwise.  This holds
    whatever the object held before. *)
Theorem setNestedProperty_readback (obj : object) (path value : string) :
  protoFree path = true ->
  Obj.getPath (VObj (setNestedProperty obj path value)) (split dot path)
  = Some (if String.eqb (List.last (split dot path) EmptyString) "age"
             && negb (isNaN value)
          then VNum (parseInt value 10)
          else VStr value).
Proof.
  intros _. unfold setNestedProperty.
  rewrite assignPath_readback by apply split_aux_nonempty.
  reflexivity.
Qed.

Lemma setNestedProperty_readback_witness :
  Obj.getPath
    (VObj (setNestedProperty [("address", VStr "Pune")] "address.city" "Pune"))
    (split dot "address.city")
  = Some (if String.eqb (List.last (split dot "address.city") EmptyString)
               "age"
             && negb (isNaN "Pune")
          then VNum (parseInt "Pune" 10)
          else VStr "Pune").
Proof.
  apply (setNestedProperty_readback [("address", VStr "Pune")]
           "address.city" "Pune").
  reflexivity.
Defined.

(** X7: [setNestedProperty] changes nothing off its path.  For an assigned
    path none of whose keys is [__proto__], a path of keys that leaves the
    assigned path at some key (after a common part [p], key [a] instead of
    [b]) leads through own properties to the same value, or to nothing,
    before and after. *)
Theorem setNestedProperty_frame (obj : object) (path value : string)
    (p : list string) (a b : string) (q rest : list string) :
  protoFree path = true ->
  split dot path = p ++ b :: rest ->
  a <> b ->
  Obj.getPath (VObj (setNestedProperty obj path value)) (p ++ a :: q)
  = Obj.getPath (VObj obj) (p ++ a :: q).
Proof.
  intros _ Hsplit Hab. unfold setNestedProperty. rewrite Hsplit.
  now apply assignPath_frame.
Qed.

Lemma setNestedProperty_frame_witness :
  Obj.getPath
    (VObj (setNestedProperty
             [("address", VObj [("city", VStr "Pune")]); ("gender", VStr "male")]
             "address.line1" "A-563"))
    (["address"] ++ "city" :: [])
  = Obj.getPath
      (VObj [("address", VObj [("city", VStr "Pune")]); ("gender", VStr "male")])
      (["address"] ++ "city" :: []).
Proof.
  apply (setNestedProperty_frame _ "address.line1" "A-563" ["address"]
           "city" "line1" [] []).
  - reflexivity.
  - reflexivity.
  - discriminate.
Defined.

(** ** Path materializer: which rows succeed, and what they give *)

Section ValidAge.

(** A value that passes the age check is stored as a number that is not
    negative (it can be NaN, for a value like [.5]). *)
Lemma valid_age_not_negative (value : string) :
  invalidAge value = false ->
  ltZero (parseInt value 10) = false.
Proof.
  intros Hvalid.
  destruct (ltZero (parseInt value 10)) eqn:Hneg; [exfalso | reflexivity].
  unfold invalidAge in Hvalid.
  apply orb_false_elim in Hvalid as [Hvalid Hint].
  apply orb_false_elim in Hvalid as [_ Hnan].
  unfold parseInt in Hneg, Hint.
  change (negb (10 =? 0)%N && ((10 <? 2)%N || (36 <? 10)%N)) with false in Hneg.
  change ((10 =? 0)%N || (10 =? 16)%N) with false in Hneg.
  change (if (10 =? 0)%N then 10%N else 10%N) with 10%N in Hneg.
  change (negb (0 =? 0)%N && ((0 <? 2)%N || (36 <? 0)%N)) with false in Hint.
  change ((0 =? 0)%N || (0 =? 16)%N) with true in Hint.
  change (if (0 =? 0)%N then 10%N else 0%N) with 10%N in Hint.
  cbv iota in Hneg, Hint.
  destruct (trimStart value) as [|c rest] eqn:Hstart.
  - cbn in Hneg. discriminate.
  - destruct (Ascii.eqb c "-") eqn:Hc.
    + apply Ascii.eqb_eq in Hc. subst c.
      change (dropSign (String "-" rest)) with rest in Hneg, Hint.
      destruct (stripHexPrefix rest) as [r|] eqn:Hhex.
      * (* "-0x...": not numeric *)
        destruct rest as [|z rest2]; [discriminate Hhex|].
        assert (Hz : z = "0"%char).
        { destruct z as [[] [] [] [] [] [] [] []]; try discriminate Hhex;
            reflexivity. }
        subst z.
        destruct rest2 as [|p t]; [discriminate Hhex|].
        cbv beta iota delta [stripHexPrefix] in Hhex.
        assert (Hp : p = "x"%char \/ p = "X"%char).
        { destruct (Ascii.eqb p "x") eqn:E1.
          - left. now apply Ascii.eqb_eq.
          - destruct (Ascii.eqb p "X") eqn:E2.
            + right. now apply Ascii.eqb_eq.
            + try rewrite E1 in Hhex; try rewrite E2 in Hhex.
              discriminate Hhex. }
        unfold isNaN, isNumericString, trim in Hnan. rewrite Hstart in Hnan.
        destruct Hp; subst p; cbn in Hnan; discriminate.
      * destruct (parseDigits 10 rest None) as [m|]; [|discriminate].
        rewrite Hneg in Hint. discriminate.
    + destruct (parseDigits 10 (dropSign (String c rest)) None) as [m|];
        [|discriminate].
      cbn [ltZero] in Hneg. apply Z.ltb_lt in Hneg.
      pose proof (N2Z.is_nonneg m). lia.
Qed.

End ValidAge.

Section WhichRowsSucceed.

(** A row with a value for every header and no invalid age goes through. *)
Lemma convertRow_loop_succeeds (hs : list string) :
  forall i values result additionalInfo,
    i + List.length hs <= List.length values ->
    (forall j h v,
        nth_error hs j = Some h -> trim h = "age" ->
        nth_error values (i + j) = Some v ->
        invalidAge (trim v) = false) ->
    exists r, convertRow_loop hs i values result additionalInfo = Return r.
Proof.
  induction hs as [|h hs IH]; intros i values result ai Hlen Hages;
    cbn [convertRow_loop List.length] in *.
  - eexists; reflexivity.
  - destruct (nth_error values i) as [v|] eqn:Hv;
      [|apply nth_error_None in Hv; lia].
    assert (Hnext : forall j h' v',
               nth_error hs j = Some h' -> trim h' = "age" ->
               nth_error values (S i + j) = Some v' ->
               invalidAge (trim v') = false).
    { intros j h' v' Hh' Ha Hv'. apply (Hages (S j) h' v'); auto.
      now replace (i + S j) with (S i + j) by lia. }
    destruct (includes mandatoryFields (trim h)).
    + destruct (String.eqb (trim h) "age") eqn:Hage; cbn [andb].
      * apply String.eqb_eq in Hage.
        rewrite (Hages 0 h v eq_refl Hage)
          by (now rewrite Nat.add_0_r).
        apply IH; [lia | exact Hnext].
      * apply IH; [lia | exact Hnext].
    + apply IH; [lia | exact Hnext].
Qed.

End WhichRowsSucceed.

(** X8: for a header whose paths have no key [__proto__], materialization
    succeeds exactly when the row has a value for every header and every
    value under an [age] header passes the age check; a short row and an
    invalid age are the only ways to fail. *)
Theorem convertRowToObject_succeeds_iff (headers values : list string) :
  protoFreeHeaders headers = true ->
  (exists record, convertRowToObject headers values = Return record)
  <-> (List.length headers <= List.length values
       /\ forall i h v,
            nth_error headers i = Some h -> trim h = "age" ->
            nth_error values i = Some v ->
            invalidAge (trim v) = false).
Proof.
  intros _. split.
  - intros [record Hok]. split.
    + destruct (Nat.le_gt_cases (List.length headers) (List.length values))
        as [H|H]; [exact H|].
      exfalso.
      destruct (convertRow_loop_short headers 0 values [] []) as [e [He _]];
        [lia | simpl; lia |].
      unfold convertRowToObject in Hok. rewrite He in Hok. discriminate.
    + intros i h v Hh Hage Hv.
      destruct (invalidAge (trim v)) eqn:Hbad; [exfalso | reflexivity].
      destruct (convertRow_loop_age i headers 0 values [] [] h v Hh Hage Hv Hbad)
        as (j & h' & v' & _ & _ & _ & _ & _ & Hrun).
      unfold convertRowToObject in Hok. rewrite Hrun in Hok. discriminate.
  - intros [Hlen Hages].
    destruct (convertRow_loop_succeeds headers 0 values [] [] Hlen Hages)
      as [[r ai] Hr].
    unfold convertRowToObject. rewrite Hr. eexists; reflexivity.
Qed.

Lemma convertRowToObject_succeeds_iff_witness :
  exists record,
    convertRowToObject ["name.firstName"; "name.lastName"; "age"]
      ["Rohit"; "Prasad"; "35"] = Return record.
Proof.
  apply (proj2 (convertRowToObject_succeeds_iff
                  ["name.firstName"; "name.lastName"; "age"]
                  ["Rohit"; "Prasad"; "35"] eq_refl)).
  split; [simpl; lia|].
  intros i h v Hh Hage Hv.
  destruct i as [|[|[|i]]]; simpl in Hh, Hv;
    try (injection Hh as <-; injection Hv as <-;
         first [reflexivity | vm_compute in Hage; discriminate Hage]).
  destruct i; discriminate Hh.
Defined.

Section RecordShape.

Lemma set_firstName (r : object) (v : string) :
  setNestedProperty r "name.firstName" v
  = Obj.set r "name" (VObj (Obj.set (nameOf r) "firstName" (VStr v))).
Proof. reflexivity. Qed.

Lemma set_lastName (r : object) (v : string) :
  setNestedProperty r "name.lastName" v
  = Obj.set r "name" (VObj (Obj.set (nameOf r) "lastName" (VStr v))).
Proof. reflexivity. Qed.

Lemma set_age (r : object) (v : string) :
  invalidAge v = false ->
  setNestedProperty r "age" v = Obj.set r "age" (VNum (parseInt v 10)).
Proof.
  intros H. unfold invalidAge in H.
  apply orb_false_elim in H as [H _]. apply orb_false_elim in H as [_ H].
  unfold setNestedProperty. cbn [split_aux]. 
  change (split dot "age") with ["age"].
  cbn [List.last assignPath]. unfold leafValue. rewrite H. reflexivity.
Qed.

Lemma nameOf_shape (r : object) : coreShape r -> nameShape (nameOf r).
Proof.
  intros H. unfold nameOf.
  destruct (Obj.get r "name") as [[s|n|o]|] eqn:E;
    try (intros k v Hk; discriminate Hk).
  destruct (H _ _ E) as [[_ (o' & Ho & Hs)]|[Hk _]];
    [injection Ho as <-; exact Hs | discriminate Hk].
Qed.

Lemma nameShape_set (o : object) (k v : string) :
  k = "firstName" \/ k = "lastName" ->
  nameShape o -> nameShape (Obj.set o k (VStr v)).
Proof.
  intros Hk Ho k' v' Hget.
  destruct (string_dec k k') as [<-|Hne].
  - rewrite get_set_same in Hget. injection Hget as <-.
    split; [exact Hk | now exists v].
  - rewrite get_set_other in Hget by exact Hne. now apply Ho.
Qed.

Lemma coreShape_set_name (r o : object) :
  coreShape r -> nameShape o -> coreShape (Obj.set r "name" (VObj o)).
Proof.
  intros Hr Ho k v Hget.
  destruct (string_dec "name" k) as [<-|Hne].
  - rewrite get_set_same in Hget. injection Hget as <-.
    left. split; [reflexivity | now exists o].
  - rewrite get_set_other in Hget by exact Hne. now apply Hr.
Qed.

Lemma coreShape_set_age (r : object) (n : number) :
  coreShape r -> ltZero n = false -> coreShape (Obj.set r "age" (VNum n)).
Proof.
  intros Hr Hn k v Hget.
  destruct (string_dec "age" k) as [<-|Hne].
  - rewrite get_set_same in Hget. injection Hget as <-.
    right. split; [reflexivity | now exists n].
  - rewrite get_set_other in Hget by exact Hne. now apply Hr.
Qed.

Lemma mandatory_cases (header : string) :
  includes mandatoryFields header = true ->
  header = "name.firstName" \/ header = "name.lastName" \/ header = "age".
Proof.
  intros H. apply includes_In in H. simpl in H.
  destruct H as [H|[H|[H|[]]]]; auto.
Qed.

(** What the loop keeps and what it adds, header by header *)
Lemma convertRow_loop_shape (hs : list string) :
  forall i values result ai r ai',
    convertRow_loop hs i values result ai = Return (r, ai') ->
    coreShape result ->
    coreShape r
    /\ (hasFirst (map trim values) result
        \/ In "name.firstName" (map trim hs) ->
        hasFirst (map trim values) r)
    /\ (hasLast (map trim values) result
        \/ In "name.lastName" (map trim hs) ->
        hasLast (map trim values) r)
    /\ (hasAge result \/ In "age" (map trim hs) -> hasAge r)
    /\ (ai <> [] -> ai' <> [])
    /\ (Forall (fun h => includes mandatoryFields (trim h) = true) hs ->
        ai' = ai).
Proof.
  induction hs as [|h hs IH]; intros i values result ai r ai' Hrun Hshape;
    cbn [convertRow_loop map] in Hrun.
  - injection Hrun as <- <-. cbn [map In].
    repeat split; auto; intros [H|[]]; exact H.
  - cbn [map In].
    destruct (nth_error values i) as [v|] eqn:Hv; [|discriminate].
    assert (Hin : In (trim v) (map trim values))
      by (apply in_map; eapply nth_error_In; eauto).
    destruct (includes mandatoryFields (trim h)) eqn:Hmand.
    + destruct (String.eqb (trim h) "age" && invalidAge (trim v)) eqn:Hbad;
        [discriminate|].
      destruct (mandatory_cases _ Hmand) as [Hh|[Hh|Hh]]; rewrite Hh in *.
      * rewrite set_firstName in Hrun.
        apply IH in Hrun;
          [|apply coreShape_set_name;
            [exact Hshape
            | apply nameShape_set; [now left | now apply nameOf_shape]]].
        destruct Hrun as (Hc & Hf & Hl & Ha & Hne & Hsame).
        split; [exact Hc|]. cbn [map In].
        split; [|split; [|split; [|split]]].
        -- intros _. apply Hf. left.
           exists (Obj.set (nameOf result) "firstName" (VStr (trim v))), (trim v).
           rewrite !get_set_same. auto.
        -- intros [(o & a & Ho & Ha' & Hina)|[Hx|Hx]];
             [|discriminate Hx|apply Hl; now right].
           apply Hl. left.
           exists (Obj.set (nameOf result) "firstName" (VStr (trim v))), a.
           rewrite get_set_same. split; [reflexivity|].
           rewrite get_set_other by discriminate.
           unfold nameOf. rewrite Ho. auto.
        -- intros [(n & Hn & Hz)|[Hx|Hx]];
             [|discriminate Hx|apply Ha; now right].
           apply Ha. left. exists n.
           rewrite get_set_other by discriminate. auto.
        -- exact Hne.
        -- intros Hall. apply Hsame. now inversion Hall.
      * rewrite set_lastName in Hrun.
        apply IH in Hrun;
          [|apply coreShape_set_name;
            [exact Hshape
            | apply nameShape_set; [now right | now apply nameOf_shape]]].
        destruct Hrun as (Hc & Hf & Hl & Ha & Hne & Hsame).
        split; [exact Hc|]. cbn [map In].
        split; [|split; [|split; [|split]]].
        -- intros [(o & a & Ho & Ha' & Hina)|[Hx|Hx]];
             [|discriminate Hx|apply Hf; now right].
           apply Hf. left.
           exists (Obj.set (nameOf result) "lastName" (VStr (trim v))), a.
           rewrite get_set_same. split; [reflexivity|].
           rewrite get_set_other by discriminate.
           unfold nameOf. rewrite Ho. auto.
        -- intros _. apply Hl. left.
           exists (Obj.set (nameOf result) "lastName" (VStr (trim v))), (trim v).
           rewrite !get_set_same. auto.
        -- intros [(n & Hn & Hz)|[Hx|Hx]];
             [|discriminate Hx|apply Ha; now right].
           apply Ha. left. exists n.
           rewrite get_set_other by discriminate. auto.
        -- exact Hne.
        -- intros Hall. apply Hsame. now inversion Hall.
      * cbn [String.eqb Ascii.eqb Bool.eqb andb] in Hbad.
        rewrite (set_age _ _ Hbad) in Hrun.
        apply IH in Hrun;
          [|apply coreShape_set_age;
            [exact Hshape | now apply valid_age_not_negative]].
        destruct Hrun as (Hc & Hf & Hl & Ha & Hne & Hsame).
        split; [exact Hc|]. cbn [map In].
        split; [|split; [|split; [|split]]].
        -- intros [(o & a & Ho & Ha' & Hina)|[Hx|Hx]];
             [|discriminate Hx|apply Hf; now right].
           apply Hf. left. exists o, a.
           rewrite get_set_other by discriminate. auto.
        -- intros [(o & a & Ho & Ha' & Hina)|[Hx|Hx]];
             [|discriminate Hx|apply Hl; now right].
           apply Hl. left. exists o, a.
           rewrite get_set_other by discriminate. auto.
        -- intros _. apply Ha. left. exists (parseInt (trim v) 10).
           rewrite get_set_same. split; [reflexivity|].
           now apply valid_age_not_negative.
        -- exact Hne.
        -- intros Hall. apply Hsame. now inversion Hall.
    + apply IH in Hrun; [|exact Hshape].
      destruct Hrun as (Hc & Hf & Hl & Ha & Hne & Hsame).
      split; [exact Hc|]. cbn [map In].
      assert (Hnot : forall f, In f mandatoryFields -> trim h <> f).
      { intros f Hf' Heq. apply includes_In in Hf'. rewrite <- Heq in Hf'.
        rewrite Hmand in Hf'. discriminate. }
      split; [|split; [|split; [|split]]].
      * intros [H|[H|H]]; [apply Hf; now left| |apply Hf; now right].
        exfalso. apply (Hnot "name.firstName"); [simpl; auto | exact H].
      * intros [H|[H|H]]; [apply Hl; now left| |apply Hl; now right].
        exfalso. apply (Hnot "name.lastName"); [simpl; auto | exact H].
      * intros [H|[H|H]]; [apply Ha; now left| |apply Ha; now right].
        exfalso. apply (Hnot "age"); [simpl; auto | exact H].
      * intros _. apply Hne.
        unfold setNestedProperty.
        pose proof (split_aux_nonempty dot (trim h) EmptyString) as Hs.
        fold (split dot (trim h)) in Hs.
        destruct (split dot (trim h)) as [|k [|k2 ks]]; [contradiction| |];
          cbn [assignPath];
          (destruct ai as [|[k0 w] t]; cbn [Obj.set];
           [discriminate | destruct (String.eqb k0 k); discriminate]).
      * intros Hall. inversion Hall as [|? ? Hh _]; subst.
        rewrite Hmand in Hh. discriminate.
Qed.

End RecordShape.

Section TrimTwice.





End TrimTwice.

Section AdditionalInfo.

Lemma setNestedProperty_nonempty (o : object) (path value : string) :
  setNestedProperty o path value <> [].
Proof.
  unfold setNestedProperty.
  pose proof (split_aux_nonempty dot path EmptyString) as Hs.
  fold (split dot path) in Hs.
  destruct (split dot path) as [|k [|k2 ks]]; [contradiction| |];
    cbn [assignPath];
    (destruct o as [|[k0 w] t]; cbn [Obj.set];
     [discriminate | destruct (String.eqb k0 k); discriminate]).
Qed.

Lemma convertRow_loop_info (hs : list string) :
  forall i values result ai r ai',
    convertRow_loop hs i values result ai = Return (r, ai') ->
    (ai <> []
     \/ Exists (fun h => includes mandatoryFields (trim h) = false) hs)
    -> ai' <> [].
Proof.
  induction hs as [|h hs IH]; intros i values result ai r ai' Hrun Hsome;
    cbn [convertRow_loop] in Hrun.
  - injection Hrun as <- <-.
    destruct Hsome as [H|H]; [exact H | inversion H].
  - destruct (nth_error values i) as [v|]; [|discriminate].
    destruct (includes mandatoryFields (trim h)) eqn:Hmand.
    + destruct (String.eqb (trim h) "age" && invalidAge (trim v));
        [discriminate|].
      eapply IH; [exact Hrun|].
      destruct Hsome as [H|H]; [now left|].
      inversion H as [? ? Hh|? ? Hh]; subst;
        [rewrite Hmand in Hh; discriminate | now right].
    + eapply IH; [exact Hrun|].
      left. apply setNestedProperty_nonempty.
Qed.

End AdditionalInfo.

(** X9: the shape of every record materialized under a header whose paths
    have no key [__proto__].  Its only keys are [name], [age] and
    [additional_info]; [name] holds an object whose only leaves are the
    strings [firstName] and [lastName]; [age] holds a number that is not
    below zero (possibly NaN); [additional_info] holds a non-empty object,
    and it is there exactly when the header has a path that is not one of
    the three mandatory ones. *)
Theorem convertRowToObject_shape (headers values : list string)
    (record : object) :
  protoFreeHeaders headers = true ->
  convertRowToObject headers values = Return record ->
  recordShape record
  /\ (Obj.get record "additional_info" <> None
      <-> Exists (fun h => includes mandatoryFields (trim h) = false)
            headers).
Proof.
  unfold convertRowToObject. intros _ H.
  destruct (convertRow_loop headers 0 values [] []) as [[r ai]|e] eqn:Hrun;
    [|discriminate].
  injection H as <-.
  assert (Hcore0 : coreShape []) by (intros k v Hk; discriminate Hk).
  destruct (convertRow_loop_shape _ _ _ _ _ _ _ Hrun Hcore0)
    as (Hcore & _ & _ & _ & _ & Hsame).
  assert (Hnone : Obj.get r "additional_info" = None).
  { destruct (Obj.get r "additional_info") as [v|] eqn:E; [|reflexivity].
    destruct (Hcore _ _ E) as [[Hk _]|[Hk _]]; discriminate Hk. }
  split.
  - destruct ai as [|p t]; cbn [Obj.nonEmpty].
    + intros k v Hk.
      destruct (Hcore _ _ Hk) as [Hn|Ha]; [now left | right; now left].
    + intros k v Hk.
      destruct (string_dec "additional_info" k) as [<-|Hne].
      * rewrite get_set_same in Hk. injection Hk as <-.
        right. right. split; [reflexivity|].
        exists (p :: t). split; [reflexivity | discriminate].
      * rewrite get_set_other in Hk by exact Hne.
        destruct (Hcore _ _ Hk) as [Hn|Ha]; [now left | right; now left].
  - split.
    + intros Hinfo.
      destruct (Exists_dec
                  (fun h => includes mandatoryFields (trim h) = false)
                  headers) as [Hex|Hnex];
        [intros h; destruct (includes mandatoryFields (trim h));
           [right; discriminate | now left]
        | exact Hex |].
      exfalso. apply Hinfo.
      assert (Hall : Forall
                       (fun h => includes mandatoryFields (trim h) = true)
                       headers).
      { apply Forall_forall. intros h Hh.
        destruct (includes mandatoryFields (trim h)) eqn:E; [reflexivity|].
        exfalso. apply Hnex. apply Exists_exists. now exists h. }
      rewrite (Hsame Hall). exact Hnone.
    + intros Hex.
      assert (Hai : ai <> [])
        by (eapply convertRow_loop_info; [exact Hrun | now right]).
      destruct ai as [|p t]; [contradiction|]. cbn [Obj.nonEmpty].
      rewrite get_set_same. discriminate.
Qed.

Lemma convertRowToObject_shape_witness :
  recordShape
    [("name", VObj [("firstName", VStr "Rohit"); ("lastName", VStr "Prasad")]);
     ("age", VNum (Int 35));
     ("additional_info", VObj [("gender", VStr "male")])].
Proof.
  apply (convertRowToObject_shape
           ["name.firstName"; "name.lastName"; "age"; "gender"]
           ["Rohit"; "Prasad"; "35"; "male"]).
  - reflexivity.
  - reflexivity.
Defined.



(** ** Transactional batch writer: what a write stores *)

Section WriterResults.

Lemma userRows_length (usersData : list object) :
  forall rows,
    userRows usersData = Return rows ->
    List.length rows = List.length usersData.
Proof.
  induction usersData as [|u us IH]; intros rows H; cbn [userRows] in H.
  - injection H as <-. reflexivity.
  - destruct (userRow u) as [r|e]; [|discriminate].
    destruct (userRows us) as [rs|e]; [|discriminate].
    injection H as <-. simpl. f_equal. now apply IH.
Qed.

Lemma userRows_In (usersData : list object) :
  forall rows r,
    userRows usersData = Return rows ->
    In r usersData ->
    exists row, userRow r = Return row /\ In row rows.
Proof.
  induction usersData as [|u us IH]; intros rows r H Hin; [contradiction|].
  cbn [userRows] in H.
  destruct (userRow u) as [row0|e] eqn:Hu; [|discriminate].
  destruct (userRows us) as [rs|e] eqn:Hus; [|discriminate].
  injection H as <-.
  destruct Hin as [<-|Hin].
  - exists row0. split; [exact Hu | now left].
  - destruct (IH rs r eq_refl Hin) as (row & Hrow & Hin').
    exists row. split; [exact Hrow | now right].
Qed.

Lemma userRow_usable (r : object) (row : row) :
  userRow r = Return row ->
  Db.validRow row = usableRecord r.
Proof.
  unfold userRow, usableRecord, Db.validRow.
  destruct (match
               match Obj.get r "additional_info" with
               | Some v => Js.prop v "address"
               | None => None
               end
             with
             | Some a =>
                 if Js.truthy a
                 then (Some a,
                       Obj.remove (Js.spread (Obj.get r "additional_info"))
                         "address")
                 else (None, Js.spread (Obj.get r "additional_info"))
             | None => (None, Js.spread (Obj.get r "additional_info"))
             end) as [address info].
  destruct (Obj.get r "name") as [n|]; [|discriminate].
  intros H. injection H as <-. reflexivity.
Qed.

(** The only way [uploadUsersBatch] returns: all three statements went
    through, and the table grew by the rows of the batch. *)
Lemma uploadUsersBatch_returns (d : database) (f : faults)
    (usersData : list object) d' sent n :
  uploadUsersBatch d f usersData = (d', sent, Return n) ->
  exists rows,
    userRows usersData = Return rows
    /\ rows <> []
    /\ forallb Db.validRow rows = true
    /\ users d' = users d ++ rows
    /\ pool d' = pool d
    /\ sent = [BEGIN; INSERT rows; COMMIT]
    /\ n = List.length usersData.
Proof.
  destruct d as [p us]; destruct f as [cf bf inf cmf rf].
  unfold uploadUsersBatch, uploadTransaction, Db.tryCatch, Db.bind,
    Db.query, Db.lift, Db.throw, Db.ret;
    cbn [pool users connect_fails begin_fails insert_fails commit_fails
         rollback_fails negb orb andb Db.accepts Db.exec Db.table Db.txn
         Db.sent fst snd].
  destruct p; cbn [negb]; [|discriminate].
  destruct cf; [discriminate|].
  destruct bf; cbn [orb]; [destruct rf; discriminate|].
  destruct (userRows usersData) as [rows|e']; [|destruct rf; discriminate].
  destruct rows as [|r0 rows];
    [destruct inf; cbn [orb negb]; destruct rf; discriminate|].
  destruct (forallb Db.validRow (r0 :: rows)) eqn:Hvalid;
    [|rewrite orb_true_r; destruct rf; discriminate].
  destruct inf; cbn [orb negb]; [destruct rf; discriminate|].
  destruct cmf; cbn [orb]; [destruct rf; discriminate|].
  intros H. injection H as <- <- <-.
  exists (r0 :: rows). repeat split; auto. discriminate.
Qed.

End WriterResults.

(** X12: when [uploadUsersBatch] returns, the batch was not empty, the
    count returned is the number of records handed over, and the table is
    the table before followed by one row for each record of the batch, in
    the order of the batch: earlier rows are untouched and nothing is
    written twice or left out. *)
Theorem uploadUsersBatch_appends_whole_batch (d : database) (f : faults)
    (usersData : list object) (d' : database) (sent : list sql) (n : nat) :
  uploadUsersBatch d f usersData = (d', sent, Return n) ->
  n = List.length usersData
  /\ usersData <> []
  /\ exists rows,
       userRows usersData = Return rows
       /\ List.length rows = List.length usersData
       /\ users d' = users d ++ rows
       /\ sent = [BEGIN; INSERT rows; COMMIT].
Proof.
  intros H.
  destruct (uploadUsersBatch_returns _ _ _ _ _ _ H)
    as (rows & Hrows & Hne & _ & Husers & _ & Hsent & Hn).
  split; [exact Hn|]. split.
  - intros ->. cbn in Hrows. injection Hrows as <-. now apply Hne.
  - exists rows. repeat split; auto. now apply userRows_length.
Qed.

Lemma uploadUsersBatch_appends_whole_batch_witness :
  2 = List.length
        [[("name", VObj [("firstName", VStr "A"); ("lastName", VStr "B")]);
          ("age", VNum (Int 1))];
         [("name", VObj [("firstName", VStr "C"); ("lastName", VStr "D")]);
          ("age", VNum (Int 2))]].
Proof.
  apply (uploadUsersBatch_appends_whole_batch
           (mkDatabase true [mkRow "X Y" (Some (VNum (Int 9))) None None])
           noFaults
           [[("name", VObj [("firstName", VStr "A"); ("lastName", VStr "B")]);
             ("age", VNum (Int 1))];
            [("name", VObj [("firstName", VStr "C"); ("lastName", VStr "D")]);
             ("age", VNum (Int 2))]]
           (mkDatabase true
              [mkRow "X Y" (Some (VNum (Int 9))) None None;
               mkRow "A B" (Some (VNum (Int 1))) None None;
               mkRow "C D" (Some (VNum (Int 2))) None None])
           [BEGIN;
            INSERT [mkRow "A B" (Some (VNum (Int 1))) None None;
                    mkRow "C D" (Some (VNum (Int 2))) None None];
            COMMIT]).
  reflexivity.
Defined.

(** X13: one record that gives no usable row (no [name], or an [age] that
    is missing, NaN or outside the 32-bit integers) makes the write of the
    whole batch fail: [uploadUsersBatch] throws and the table is as before,
    so the good records of the batch are not stored either. *)
Theorem one_unusable_record_fails_batch (d : database) (f : faults)
    (usersData : list object) (r : object) :
  In r usersData ->
  usableRecord r = false ->
  exists e sent, uploadUsersBatch d f usersData = (d, sent, Throw e).
Proof.
  intros Hin Hbad.
  destruct (uploadUsersBatch d f usersData) as [[d' sent] [n|e]] eqn:Hup.
  - exfalso.
    destruct (uploadUsersBatch_returns _ _ _ _ _ _ Hup)
      as (rows & Hrows & _ & Hvalid & _).
    destruct (userRows_In _ _ _ Hrows Hin) as (row & Hrow & Hinrow).
    rewrite forallb_forall in Hvalid.
    rewrite <- (userRow_usable _ _ Hrow) in Hbad.
    rewrite (Hvalid _ Hinrow) in Hbad. discriminate.
  - destruct (uploadUsersBatch_throw _ _ _ _ _ _ Hup) as [-> _].
    now exists e, sent.
Qed.

Lemma one_unusable_record_fails_batch_witness :
  exists e sent,
    uploadUsersBatch (mkDatabase true []) noFaults
      [[("name", VObj [("firstName", VStr "A"); ("lastName", VStr "B")]);
        ("age", VNum (Int 1))];
       [("name", VObj [("firstName", VStr "C"); ("lastName", VStr "D")]);
        ("age", VNum NaN)]]
    = (mkDatabase true [], sent, Throw e).
Proof.
  apply (one_unusable_record_fails_batch _ _ _
           [("name", VObj [("firstName", VStr "C"); ("lastName", VStr "D")]);
            ("age", VNum NaN)]).
  - right. left. reflexivity.
  - reflexivity.
Defined.

(** ** The run: bookkeeping that holds for every order of events *)

Section Bookkeeping.

(** A settled write changes the handler's counters and the table, and
    nothing of the parser's state. *)
Lemma onBatch_effect (f : faults) (usersData : list object) (st : state) :
  let st' := Run.onBatch f usersData st in
  (headers st' = headers st /\ batch st' = batch st
   /\ totalProcessed st' = totalProcessed st
   /\ totalErrors st' = totalErrors st /\ currLine st' = currLine st
   /\ arrays st' = arrays st /\ suspended st' = suspended st
   /\ error_log st' = error_log st /\ handed st' = handed st
   /\ reply st' = reply st)
  /\ ((appProcessed st' = appProcessed st + List.length usersData
       /\ appErrors st' = appErrors st
       /\ List.length (users (store st'))
          = List.length (users (store st)) + List.length usersData)
      \/ (appProcessed st' = appProcessed st
          /\ appErrors st' = appErrors st + List.length usersData
          /\ store st' = store st)).
Proof.
  unfold Run.onBatch.
  destruct (uploadUsersBatch (store st) f usersData) as [[d s] [n|e]] eqn:Hup;
    cbn [headers batch totalProcessed totalErrors currLine arrays suspended
         error_log handed reply appProcessed appErrors store];
    (split; [repeat split; reflexivity|]).
  - left.
    destruct (uploadUsersBatch_returns _ _ _ _ _ _ Hup)
      as (rows & Hrows & _ & _ & Husers & _).
    rewrite Husers, length_app, (userRows_length _ _ Hrows).
    repeat split; reflexivity.
  - right. destruct (uploadUsersBatch_throw _ _ _ _ _ _ Hup) as [-> _].
    repeat split; reflexivity.
Qed.

Lemma booked_catchLine (e : exn) (st : state) :
  booked st -> booked (Run.catchLine e st).
Proof.
  intros (Hs & Hl & Hp). unfold booked, Run.catchLine.
  cbn [store appProcessed error_log totalErrors].
  split; [exact Hs|]. split.
  - rewrite length_app. simpl. lia.
  - apply Forall_app. split; [exact Hp|].
    constructor; [|constructor].
    apply (prefix_append "Line ").
Qed.

Lemma booked_step (st : state) (e : event) :
  booked st -> booked (Run.step st e).
Proof.
  intros H. destruct e as [line| |k f|error]; cbn [Run.step].
  - unfold Run.onLine. cbn [headers Run.nextLine].
    destruct (headers st) as [hs|].
    + destruct (isEmpty (trim line)); [exact H|].
      destruct (convertRowToObject hs (parseCSVLine line)) as [obj|err].
      * destruct (batchSize <=? _)%nat; exact H.
      * apply booked_catchLine. exact H.
    + destruct (validateMandatoryFields (parseCSVLine line)).
      * exact H.
      * apply booked_catchLine. exact H.
  - unfold Run.onClose.
    destruct (0 <? _)%nat; exact H.
  - unfold Run.onSettled.
    destruct (nth_error (suspended st) k) as [[o ref]|]; [|exact H].
    destruct H as (Hs & Hl & Hp).
    destruct (onBatch_effect f (nth ref (arrays st) []) st)
      as ((_ & _ & _ & He & _ & _ & _ & Hlog & _ & _) & Hcount).
    remember (Run.onBatch f (nth ref (arrays st) []) st) as st1 eqn:E.
    clear E.
    assert (H1 : booked st1).
    { unfold booked. rewrite Hlog, He.
      split; [|split; assumption].
      destruct Hcount as [(Hp1 & _ & Hu)|(Hp1 & _ & Hu)].
      - rewrite Hu, Hp1. lia.
      - rewrite Hu, Hp1. exact Hs. }
    destruct o; unfold Run.resume, Run.resolve; exact H1.
  - exact H.
Qed.

Lemma currLine_step (st : state) (e : event) :
  currLine (Run.step st e)
  = currLine st + (if isLine e then 1 else 0).
Proof.
  destruct e as [line| |k f|error]; cbn [Run.step isLine].
  - unfold Run.onLine. cbn [headers Run.nextLine].
    destruct (headers st) as [hs|].
    + destruct (isEmpty (trim line)); [simpl; lia|].
      destruct (convertRowToObject hs (parseCSVLine line)) as [obj|err];
        [destruct (batchSize <=? _)%nat|]; simpl; lia.
    + destruct (validateMandatoryFields (parseCSVLine line)); simpl; lia.
  - unfold Run.onClose. destruct (0 <? _)%nat; simpl; lia.
  - unfold Run.onSettled.
    destruct (nth_error (suspended st) k) as [[o ref]|]; [|lia].
    destruct (onBatch_effect f (nth ref (arrays st) []) st)
      as ((_ & _ & _ & _ & Hc & _) & _).
    remember (Run.onBatch f (nth ref (arrays st) []) st) as st1 eqn:E.
    clear E.
    destruct o; unfold Run.resume, Run.resolve; cbn [currLine]; lia.
  - simpl. lia.
Qed.

Lemma currLine_run (events : list event) :
  forall st,
    currLine (fold_left Run.step events st)
    = currLine st + List.length (filter isLine events).
Proof.
  induction events as [|e events IH]; intros st; simpl; [lia|].
  rewrite IH, currLine_step. destruct (isLine e); simpl; lia.
Qed.

Lemma booked_run (events : list event) :
  forall st, booked st -> booked (fold_left Run.step events st).
Proof.
  induction events as [|e events IH]; intros st Hst; simpl; auto.
  apply IH. now apply booked_step.
Qed.

(** Events other than lines leave the log and the parser's counters. *)
Lemma parser_counters_step (st : state) (e : event) :
  isLine e = false ->
  error_log (Run.step st e) = error_log st
  /\ totalErrors (Run.step st e) = totalErrors st
  /\ currLine (Run.step st e) = currLine st.
Proof.
  intros He. destruct e as [line| |k f|error]; cbn [Run.step];
    [discriminate He| | |].
  - unfold Run.onClose.
    destruct (0 <? _)%nat; repeat split; reflexivity.
  - unfold Run.onSettled.
    destruct (nth_error (suspended st) k) as [[o ref]|];
      [|repeat split; reflexivity].
    destruct (onBatch_effect f (nth ref (arrays st) []) st)
      as ((_ & _ & _ & Herr & Hc & _ & _ & Hlog & _ & _) & _).
    remember (Run.onBatch f (nth ref (arrays st) []) st) as st1 eqn:E.
    clear E. rewrite <- Hlog, <- Herr, <- Hc.
    destruct o; unfold Run.resume, Run.resolve; repeat split; reflexivity.
  - repeat split; reflexivity.
Qed.

End Bookkeeping.

(** X14: the parser's error bookkeeping, for every order of events.  The
    error log never has more entries than the parser has counted errors,
    every entry starts with [Line ], and the line counter is the number of
    lines delivered so far, blank lines and the header line included.  Only
    a line changes any of the three: a write that settles, the end of the
    input and a stream error leave the log, the error count and the line
    counter as they are. *)
Theorem error_log_matches_error_count (events : list event) :
  let st := Run.run events in
  List.length (error_log st) <= totalErrors st
  /\ Forall (fun entry => String.prefix "Line " entry = true) (error_log st)
  /\ currLine st = List.length (filter isLine events)
  /\ forall e,
       isLine e = false ->
       error_log (Run.step st e) = error_log st
       /\ totalErrors (Run.step st e) = totalErrors st
       /\ currLine (Run.step st e) = currLine st.
Proof.
  cbv zeta. unfold Run.run.
  destruct (booked_run events Run.start) as (_ & Hl & Hp);
    [repeat split; constructor|].
  split; [rewrite Hl; apply Nat.le_refl|]. split; [exact Hp|].
  split; [apply (currLine_run events Run.start)|].
  intros e He. apply parser_counters_step. exact He.
Qed.

(** ** The run under serial delivery: every row is accounted for *)

Section Accounting.

Variable plan : nat -> faults.

Lemma accounted_flush (st : state) (o : origin) :
  suspended st = [] ->
  batch st < List.length (arrays st) ->
  reply st = None ->
  headers st <> None ->
  List.length (users (store st)) = appProcessed st ->
  let n := totalErrors st + appProcessed st + appErrors st
           + List.length (Run.batchArray st) in
  let st' := Run.settleNow plan (Run.awaitOnBatch o st) in
  match o with
  | FromLine => accounted n st'
  | FromClose =>
      exists p e,
        reply st' = Some (Summary p e)
        /\ p + e = n
        /\ p = List.length (users (store st'))
  end.
Proof.
  intros Hs Hb Hr Hh Hu n st'. subst n st'.
  unfold Run.settleNow, Run.awaitOnBatch.
  cbn [suspended handed]. rewrite Hs. cbn [app].
  unfold Run.step, Run.onSettled.
  cbn [suspended nth_error Run.removeNth arrays batch].
  fold (Run.batchArray st).
  match goal with
  | |- context [Run.onBatch ?f ?u ?s] =>
      destruct (onBatch_effect f u s)
        as ((Hh' & Hb' & _ & He' & _ & Ha' & _ & _ & _ & Hr') & Hcount);
      remember (Run.onBatch f u s) as st1 eqn:E; clear E
  end.
  cbn [headers batch totalErrors arrays reply appProcessed appErrors store]
    in *.
  assert (Hsum : appProcessed st1 + appErrors st1
                 = appProcessed st + appErrors st
                   + List.length (Run.batchArray st)
                 /\ List.length (users (store st1)) = appProcessed st1).
  { destruct Hcount as [(H1 & H2 & H3)|(H1 & H2 & H3)].
    - rewrite H1, H2, H3. lia.
    - rewrite H1, H2, H3. lia. }
  destruct Hsum as [Hsum Hu1].
  destruct o; unfold Run.resume, Run.resolve.
  - unfold accounted, Run.batchArray.
    cbn [suspended batch arrays reply headers totalErrors appProcessed
         appErrors store].
    rewrite Ha', nth_fresh, length_app, Hr', Hh', He'.
    unfold Run.batchArray in Hsum.
    simpl. repeat split; auto; lia.
  - cbn [reply store]. rewrite Hr', Hr.
    eexists _, _. split; [reflexivity|].
    cbn [totalErrors appProcessed appErrors]. rewrite He'.
    split; [lia | now rewrite Hu1].
Qed.

Lemma accounted_line (n : nat) (st : state) (line : string) :
  accounted n st ->
  accounted (n + (if nonBlank line then 1 else 0))
    (Run.settleNow plan (Run.step st (Line line))).
Proof.
  intros (Hs & Hb & Hr & Hh & Hn & Hu).
  unfold Run.step, Run.onLine, nonBlank. cbn [headers Run.nextLine].
  destruct (headers st) as [hs|] eqn:Hhs; [|contradiction].
  destruct (isEmpty (trim line)); cbn [negb].
  - rewrite settleNow_quiet by exact Hs.
    unfold accounted, Run.batchArray in *.
    cbn [suspended batch arrays reply headers totalErrors appProcessed
         appErrors store Run.nextLine].
    repeat split; auto; try congruence; lia.
  - destruct (convertRowToObject hs (parseCSVLine line)) as [obj|e].
    + assert (Hpush : Run.batchArray (Run.push obj (Run.nextLine st))
                      = Run.batchArray st ++ [obj]).
      { unfold Run.batchArray, Run.push, Run.nextLine.
        cbn [batch arrays]. now apply pushAt_nth. }
      assert (Hlen : List.length
                       (Run.batchArray (Run.push obj (Run.nextLine st)))
                     = S (List.length (Run.batchArray st))).
      { rewrite Hpush, length_app. simpl. lia. }
      destruct (batchSize <=? List.length
                  (Run.batchArray (Run.push obj (Run.nextLine st))))%nat.
      * pose proof (accounted_flush (Run.push obj (Run.nextLine st))
                      FromLine) as Hflush.
        cbn [suspended batch arrays reply headers store appProcessed
             appErrors totalErrors Run.push Run.nextLine] in Hflush.
        rewrite pushAt_length in Hflush.
        specialize (Hflush Hs Hb Hr ltac:(congruence) Hu).
        cbv zeta in Hflush.
        fold (Run.nextLine st) in Hflush.
        fold (Run.push obj (Run.nextLine st)) in Hflush.
        rewrite Hlen in Hflush.
        replace (n + 1)
          with (totalErrors st + appProcessed st + appErrors st
                + S (List.length (Run.batchArray st))) by lia.
        exact Hflush.
      * rewrite settleNow_quiet by exact Hs.
        unfold accounted. rewrite Hlen.
        cbn [suspended batch arrays reply headers totalErrors appProcessed
             appErrors store Run.push Run.nextLine].
        rewrite pushAt_length. repeat split; auto; try congruence; lia.
    + rewrite settleNow_quiet by exact Hs.
      unfold accounted, Run.batchArray in *.
      cbn [suspended batch arrays reply headers totalErrors appProcessed
           appErrors store Run.catchLine Run.nextLine].
      repeat split; auto; try congruence; lia.
Qed.

Lemma accounted_lines (lines : list string) :
  forall n st,
    accounted n st ->
    accounted (n + List.length (filter nonBlank lines))
      (fold_left (fun st line => Run.settleNow plan (Run.step st (Line line)))
         lines st).
Proof.
  induction lines as [|line lines IH]; intros n st H; cbn [fold_left filter].
  - simpl. now rewrite Nat.add_0_r.
  - apply (accounted_line n st line) in H. apply IH in H.
    destruct (nonBlank line); cbn [List.length].
    + now replace (n + S (List.length (filter nonBlank lines)))
        with (n + 1 + List.length (filter nonBlank lines)) by lia.
    + now rewrite Nat.add_0_r in H.
Qed.

Lemma accounted_header (header : string) :
  accounted
    (match validateMandatoryFields (parseCSVLine header) with
     | Return _ => 0
     | Throw _ => 1
     end)
    (Run.settleNow plan (Run.step Run.start (Line header))).
Proof.
  unfold Run.step, Run.onLine. cbn [headers Run.nextLine Run.start].
  destruct (validateMandatoryFields (parseCSVLine header));
    rewrite settleNow_quiet by reflexivity;
    unfold accounted, Run.batchArray;
    cbn; repeat split; auto; try congruence; lia.
Qed.


(** The counters once the ['close'] listener is through *)
Lemma closed_counters (n : nat) (st : state) :
  accounted n st ->
  let st' := Run.settleNow plan (Run.step st Close) in
  suspended st' = []
  /\ appProcessed st' + (totalErrors st' + appErrors st') = n
  /\ appProcessed st' = List.length (users (store st')).
Proof.
  intros (Hs & Hb & Hr & Hh & Hn & Hu). cbv zeta.
  unfold Run.step, Run.onClose.
  destruct (0 <? List.length (Run.batchArray st))%nat eqn:Hne.
  - unfold Run.settleNow, Run.awaitOnBatch.
    cbn [suspended handed]. rewrite Hs. cbn [app].
    unfold Run.step, Run.onSettled.
    cbn [suspended nth_error Run.removeNth arrays batch].
    fold (Run.batchArray st).
    match goal with
    | |- context [Run.onBatch ?f ?u ?s] =>
        destruct (onBatch_effect f u s)
          as ((_ & _ & _ & He' & _ & _ & _ & _ & _ & _) & Hcount);
        remember (Run.onBatch f u s) as st1 eqn:E; clear E
    end.
    cbn [totalErrors appProcessed appErrors store] in *.
    unfold Run.resume, Run.resolve.
    cbn [suspended totalErrors appProcessed appErrors store].
    split; [reflexivity|].
    destruct Hcount as [(H1 & H2 & H3)|(H1 & H2 & H3)];
      rewrite ?H1, ?H2, ?H3, ?He'; split; lia.
  - apply Nat.ltb_ge in Hne.
    rewrite settleNow_quiet by (unfold Run.resolve; exact Hs).
    unfold Run.resolve. cbn [suspended totalErrors appProcessed appErrors store].
    split; [exact Hs|]. split; [lia | now rewrite Hu].
Qed.

End Accounting.

(** X16: under serial delivery every row is accounted for exactly once.
    For a file with a header line and further lines, whatever writes fail,
    at the end of the run no write is pending and the counters from which
    the handler builds its summary add up: the records counted as
    processed, plus the parser's errors, plus the records of failed
    batches, are the lines after the header that are not blank, plus one
    when the header line fails the header check; and the records counted as
    processed are as many as the rows in the table. *)
Theorem serial_run_accounts_for_every_row
    (plan : nat -> faults) (header : string) (rows : list string) :
  let st := Run.runSerial plan (header :: rows) in
  suspended st = []
  /\ appProcessed st + (totalErrors st + appErrors st)
     = List.length (filter nonBlank rows)
       + match validateMandatoryFields (parseCSVLine header) with
         | Return _ => 0
         | Throw _ => 1
         end
  /\ appProcessed st = List.length (users (store st)).
Proof.
  cbv zeta. unfold Run.runSerial. cbn [fold_left].
  pose proof (accounted_header plan header) as H0.
  apply (accounted_lines plan rows) in H0.
  destruct (closed_counters plan _ _ H0) as (Hs & Hsum & Hp).
  split; [exact Hs|]. split; [lia | exact Hp].
Qed.

(** ** The run under serial delivery: how the records are batched *)

Section Batching.

Variable plan : nat -> faults.







End Batching.



(** ** The run under serial delivery: what the error log holds *)

Section ErrorLog.

Variable plan : nat -> faults.



End ErrorLog.


(** ** Record to row: the address *)

Section AddressColumn.








End AddressColumn.



(** ** Row tokenizer: a quote that is never closed *)

Section OpenQuote.

Lemma open_quote_scan (s : string) :
  forall values current,
    contains_char dquote s = false ->
    parseCSVLine_loop s values current true
    = values ++ [trim (current ++ s)].
Proof.
  induction s as [|c r IH]; intros values current Hq.
  - cbn [parseCSVLine_loop].
    replace (current ++ EmptyString)%string with current
      by (clear; induction current; simpl; congruence).
    reflexivity.
  - cbn [contains_char] in Hq. apply orb_false_elim in Hq as [Hc Hr].
    rewrite Ascii.eqb_sym in Hc.
    cbn [parseCSVLine_loop]. rewrite Hc, andb_false_r.
    rewrite IH by exact Hr.
    unfold push_char. now rewrite append_assoc.
Qed.

End OpenQuote.

(** X4: a quote character that is never closed swallows the rest of the
    line: everything after it, commas included, becomes one field. *)
Theorem parseCSVLine_unclosed_quote (before after : string) :
  contains_char dquote before = false ->
  contains_char comma before = false ->
  contains_char dquote after = false ->
  parseCSVLine (before ++ String dquote after) = [trim (before ++ after)].
Proof.
  intros Hb Hc Ha. unfold parseCSVLine.
  assert (H : forall values current,
             parseCSVLine_loop (before ++ String dquote after) values
               current false
             = values ++ [trim (current ++ before ++ after)]).
  { induction before as [|c r IH]; intros values current.
    - cbn [append]. rewrite quote_outside. now apply open_quote_scan.
    - cbn [contains_char] in Hb, Hc.
      apply orb_false_elim in Hb as [Hb1 Hb2].
      apply orb_false_elim in Hc as [Hc1 Hc2].
      rewrite Ascii.eqb_sym in Hb1. rewrite Ascii.eqb_sym in Hc1.
      cbn [append parseCSVLine_loop]. rewrite Hb1, Hc1. cbn [andb].
      rewrite IH by assumption.
      unfold push_char. now rewrite append_assoc. }
  apply (H [] EmptyString).
Qed.

Lemma parseCSVLine_unclosed_quote_witness :
  parseCSVLine ("Pune " ++ String dquote "a, b, c")
  = [trim ("Pune " ++ "a, b, c")].
Proof. apply parseCSVLine_unclosed_quote; reflexivity. Defined.

(** ** The run under serial delivery without faults: what is stored *)

Section FaultlessRun.







End FaultlessRun.


